(** * cm: schema/plan-cache manager and result-set encoder

  A shallow embedding of [proxy/conn_resultset.go] and
  [vt/tabletserver/schema_info.go], followed by the properties
  established about them. Go integers are [Z] with explicit wrap-around,
  byte slices are [list byte], Go maps are [gmap], pointers that may be
  nil are [option]. *)

From Stdlib Require Import ZArith Lia.
From Stdlib.Strings Require Import Byte.
From stdpp Require Import gmap strings pretty list fin_maps.

Local Open Scope Z_scope.

(** ** Go scalars *)

(** Conversion to an unsigned [w]-bit integer. *)
Definition wrapU (w : Z) (n : Z) : Z := n mod 2 ^ w.

(** Conversion to a signed [w]-bit integer (two's complement). *)
Definition wrapS (w : Z) (n : Z) : Z :=
  (n + 2 ^ (w - 1)) mod 2 ^ w - 2 ^ (w - 1).

Definition uint8 := wrapU 8.
Definition uint16 := wrapU 16.
Definition int64 := wrapS 64.

Definition int64_min : Z := - 2 ^ 63.
Definition int64_max : Z := 2 ^ 63 - 1.
Definition in_int64 (n : Z) : Prop := int64_min <= n <= int64_max.

(** [byte(n)]: the low eight bits of [n]. *)
Definition byte_of_Z (n : Z) : byte :=
  match Byte.of_N (Z.to_N (uint8 n)) with
  | Some b => b
  | None => x00
  end.

(** The dynamic type of an [interface{}] value, as far as the type switch
  of [formatField] tells values apart. [VOther] stands for every other
  dynamic type and carries the name [%T] prints for it. *)
Inductive int_kind := KInt8 | KInt16 | KInt32 | KInt64 | KInt.
Inductive uint_kind := KUint8 | KUint16 | KUint32 | KUint64 | KUint.
Inductive float_kind := KFloat32 | KFloat64.

Inductive value :=
| VInt (k : int_kind) (n : Z)
| VUint (k : uint_kind) (n : Z)
| VFloat (k : float_kind) (bits : Z)
| VString (s : string)
| VBytes (b : list byte)
| VNil
| VOther (type_name : string).

(** [value == nil] *)
Definition is_nil (v : value) : bool :=
  match v with VNil => true | _ => false end.

(** ** Package mysql: the wire-protocol vocabulary used by the encoder *)
Module Mysql.

(** Modelled from the spec: the column-type and column-flag constants of
    package [mysql], which is not among the sources; the values are those
    of the MySQL client/server protocol. *)
Definition MYSQL_TYPE_LONGLONG : Z := 8.
Definition MYSQL_TYPE_VARCHAR : Z := 15.
Definition NOT_NULL_FLAG : Z := 1.
Definition UNSIGNED_FLAG : Z := 32.
Definition BINARY_FLAG : Z := 128.

(** [mysql.Field], restricted to the members this code writes. A freshly
    allocated [&mysql.Field{}] is [zero_Field]. *)
Record Field := mkField {
  Field_Name : string;
  Field_Charset : Z;
  Field_Type : Z;
  Field_Flag : Z;
  Field_IsUnsigned : bool
}.

Definition zero_Field : Field := mkField "" 0 0 0 false.

Definition set_Name (s : string) (f : Field) : Field :=
  mkField s (Field_Charset f) (Field_Type f) (Field_Flag f) (Field_IsUnsigned f).
Definition set_Charset (c : Z) (f : Field) : Field :=
  mkField (Field_Name f) c (Field_Type f) (Field_Flag f) (Field_IsUnsigned f).
Definition set_Type (t : Z) (f : Field) : Field :=
  mkField (Field_Name f) (Field_Charset f) t (Field_Flag f) (Field_IsUnsigned f).
Definition set_Flag (g : Z) (f : Field) : Field :=
  mkField (Field_Name f) (Field_Charset f) (Field_Type f) g (Field_IsUnsigned f).
Definition set_IsUnsigned (u : bool) (f : Field) : Field :=
  mkField (Field_Name f) (Field_Charset f) (Field_Type f) (Field_Flag f) u.

(** [mysql.Resultset]: [Fields] is a slice of pointers, so a slot may be
    nil; [RowDatas] holds one encoded buffer per row. *)
Record Resultset := mkResultset {
  Fields : list (option Field);
  RowDatas : list (list byte)
}.

(** Little-endian bytes of [n], [k] of them. *)
Fixpoint le_bytes (k : nat) (n : Z) : list byte :=
  match k with
  | O => []
  | S k' => byte_of_Z n :: le_bytes k' (Z.shiftr n 8)
  end.

(** Modelled from the spec: [mysql.PutLengthEncodedInt], the
    length-encoded integer of the MySQL client/server protocol, applied
    to a [uint64]. *)
Definition PutLengthEncodedInt (n : Z) : list byte :=
  if n <=? 250 then [byte_of_Z n]
  else if n <=? 65535 then xfc :: le_bytes 2 n
  else if n <=? 16777215 then xfd :: le_bytes 3 n
  else xfe :: le_bytes 8 n.

(** Modelled from the spec: [mysql.PutLengthEncodedString], a byte string
    prefixed by its length-encoded length (the allocator only provides
    the backing store). *)
Definition PutLengthEncodedString (b : list byte) : list byte :=
  PutLengthEncodedInt (Z.of_nat (length b)) ++ b.

(** The parts of package [mysql] and of the connection that the encoder
    calls and that are not among the sources.
    - [Raw t v u] renders a non-nil value for wire type [t];
    - [CollationNames] is the collation table, with Go's zero default
      for a name that is not in it;
    - [Dump] serialises a field descriptor;
    - [eof_payload] is the body of the EOF/status packet for the given
      status flags. *)
Class Externals := {
  Raw : Z -> value -> bool -> list byte;
  CollationNames : string -> Z;
  Dump : Field -> list byte;
  eof_payload : Z -> list byte
}.

End Mysql.

(** ** Package schema: column metadata *)
Module Schema.

(** [schema.TableColumn], restricted to the members the encoder reads. *)
Record TableColumn := mkTableColumn {
  Column_Name : string;
  Column_SqlType : Z;
  Column_Collation : string;
  Column_IsUnsigned : bool
}.

Inductive CacheType := CACHE_NONE | CACHE_RW | CACHE_W.

#[export] Instance CacheType_eq_dec : EqDecision CacheType.
Proof. solve_decision. Defined.

End Schema.

(** ** Package proxy: the result-set encoder *)
Module Proxy.
Import Mysql Schema.

(** Errors the encoder hands back to its caller.
    - [ErrUnsupported ty]: ["unsupport type %T for resultset"];
    - [ErrRowMismatch i n m]: ["row %d has %d column not equal %d"];
    - [ErrWrite k]: the transport refused I/O operation number [k]. *)
Inductive error :=
| ErrUnsupported (type_name : string)
| ErrRowMismatch (i n m : nat)
| ErrWrite (k : nat).

(** Result of a call returning [(T, error)]; [Panic] is a Go run-time
    panic (index out of range, nil dereference). *)
Inductive res (A : Type) :=
| Ok (a : A)
| Err (e : error)
| Panic.
Arguments Ok {A} a.
Arguments Err {A} e.
Arguments Panic {A}.

(** [%T] of a value. *)
Definition type_name_of (v : value) : string :=
  match v with
  | VInt KInt8 _ => "int8" | VInt KInt16 _ => "int16"
  | VInt KInt32 _ => "int32" | VInt KInt64 _ => "int64"
  | VInt KInt _ => "int"
  | VUint KUint8 _ => "uint8" | VUint KUint16 _ => "uint16"
  | VUint KUint32 _ => "uint32" | VUint KUint64 _ => "uint64"
  | VUint KUint _ => "uint"
  | VFloat KFloat32 _ => "float32" | VFloat KFloat64 _ => "float64"
  | VString _ => "string"
  | VBytes _ => "[]uint8"
  | VNil => "<nil>"
  | VOther ty => ty
  end.

(** [formatField]: the field is passed by pointer, so the function
    returns the field as it stands afterwards together with the error. *)
Definition formatField (field : Field) (v : value) : Field * option error :=
  match v with
  | VInt _ _ =>
      let field := set_Charset 63 field in
      let field := set_Type MYSQL_TYPE_LONGLONG field in
      let field := set_Flag (Z.lor BINARY_FLAG NOT_NULL_FLAG) field in
      (field, None)
  | VUint _ _ =>
      let field := set_Charset 63 field in
      let field := set_Type MYSQL_TYPE_LONGLONG field in
      let field :=
        set_Flag (Z.lor (Z.lor BINARY_FLAG NOT_NULL_FLAG) UNSIGNED_FLAG) field in
      (field, None)
  | VFloat _ _ =>
      (set_Charset 63 field, None)
  | VString _ | VBytes _ =>
      let field := set_Charset 33 field in
      let field := set_Type MYSQL_TYPE_VARCHAR field in
      (field, None)
  | VNil => (field, None)
  | VOther _ => (field, Some (ErrUnsupported (type_name_of v)))
  end.

Section Build.
Context `{Externals}.

(** The body of [for j, value := range vs], from column [j] on.
    [fields] is [r.Fields], [row] the buffer built so far. Every
    iteration allocates a zero field; only on the first row is it
    stored in [r.Fields[j]] and filled. *)
Fixpoint buildRow (nameTypes : list TableColumn) (i j : nat)
    (vs : list value) (fields : list (option Field)) (row : list byte)
    : res (list (option Field) * list byte) :=
  match vs with
  | [] => Ok (fields, row)
  | v :: vs' =>
      let field := zero_Field in
      let filled : res (Field * list (option Field)) :=
        if (i =? 0)%nat then
          if negb (j <? length fields)%nat then Panic
          else
            match nameTypes !! j with
            | None => Panic
            | Some nt =>
                let field := set_Name (Column_Name nt) field in
                match formatField field v with
                | (_, Some e) => Err e
                | (field, None) =>
                    let field := set_Type (Column_SqlType nt) field in
                    let field :=
                      set_Charset
                        (uint16 (CollationNames (Column_Collation nt))) field in
                    let field :=
                      set_IsUnsigned (Column_IsUnsigned nt) field in
                    Ok (field, <[j := Some field]> fields)
                end
            end
        else Ok (field, fields) in
      match filled with
      | Panic => Panic
      | Err e => Err e
      | Ok (field, fields) =>
          let row :=
            if is_nil v then row ++ [xfb]
            else
              let b := Raw (uint8 (Field_Type field)) v
                           (Field_IsUnsigned field) in
              row ++ PutLengthEncodedString b in
          buildRow nameTypes i (S j) vs' fields row
      end
  end.

(** The body of [for i, vs := range values], from row [i] on. *)
Fixpoint buildRows (nameTypes : list TableColumn) (i : nat)
    (values : list (list value)) (r : Resultset) : res Resultset :=
  match values with
  | [] => Ok r
  | vs :: values' =>
      if negb (length vs =? length (Fields r))%nat then
        Err (ErrRowMismatch i (length vs) (length (Fields r)))
      else
        match buildRow nameTypes i 0 vs (Fields r) [] with
        | Panic => Panic
        | Err e => Err e
        | Ok (fields, row) =>
            buildRows nameTypes (S i) values'
              (mkResultset fields (RowDatas r ++ [row]))
        end
  end.

(** [Conn.buildResultset]; [Err e] is the return [(nil, err)]. *)
Definition buildResultset (nameTypes : list TableColumn)
    (values : list (list value)) : res Resultset :=
  buildRows nameTypes 0 values
    (mkResultset (replicate (length nameTypes) None) []).

End Build.

(** *** The client connection *)

(** What has gone out on the connection, in order: packets handed to the
    buffered writer, and flushes of that writer. *)
Inductive event :=
| EvPacket (payload : list byte)
| EvFlush.

(** [Conn], restricted to the members [writeResultset] touches. *)
Record Conn := mkConn {
  affectedRows : Z;
  io : list event
}.

(** Computations on the connection that may return an error or panic. *)
Definition IO (A : Type) : Type := Conn -> res A * Conn.

Definition io_ret {A} (a : A) : IO A := fun c => (Ok a, c).

Definition io_bind {A B} (m : IO A) (k : A -> IO B) : IO B :=
  fun c =>
    match m c with
    | (Ok a, c') => k a c'
    | (Err e, c') => (Err e, c')
    | (Panic, c') => (Panic, c')
    end.

Notation "x <- m ;; k" := (io_bind m (fun x => k))
  (at level 100, m at next level, right associativity).
Notation "m ;;; k" := (io_bind m (fun _ => k))
  (at level 100, right associativity).

Section Write.
Context `{Externals}.

(** The transport: [io_fails k] tells whether the I/O operation attempted
    when [k] operations have already gone out is refused. *)
Variable io_fails : nat -> bool.

(** Modelled from the spec: [alloc.AllocBytesWithLen(4, cap)], a buffer
    whose first four bytes are the header reserved for the transport. *)
Definition AllocBytesWithLen4 : list byte := replicate 4 x00.

(** Modelled from the spec: [Conn.writePacket], which frames [data] (its
    first four bytes are the reserved header) and hands the payload to the
    buffered writer, or fails with a connection error. *)
Definition writePacket (data : list byte) : IO unit :=
  fun c =>
    let k := length (io c) in
    if io_fails k then (Err (ErrWrite k), c)
    else (Ok tt, mkConn (affectedRows c) (io c ++ [EvPacket (drop 4 data)])).

(** Modelled from the spec: [Conn.writeEOF], one EOF/status packet that
    reflects the status flags, written through [writePacket]. *)
Definition writeEOF (status : Z) : IO unit :=
  writePacket (AllocBytesWithLen4 ++ eof_payload status).

(** Modelled from the spec: [Conn.flush], which pushes the buffered
    packets to the socket, or fails with a connection error. *)
Definition flush : IO unit :=
  fun c =>
    let k := length (io c) in
    if io_fails k then (Err (ErrWrite k), c)
    else (Ok tt, mkConn (affectedRows c) (io c ++ [EvFlush])).

(** [for _, v := range r.Fields]: [data] is cut back to its header and the
    dumped descriptor appended; a nil descriptor cannot be dumped. *)
Fixpoint writeFields (data : list byte) (fields : list (option Field))
    : IO (list byte) :=
  match fields with
  | [] => io_ret data
  | None :: _ => fun c => (Panic, c)
  | Some v :: fields' =>
      let data := take 4 data in
      let data := data ++ Dump v in
      writePacket data ;;;
      writeFields data fields'
  end.

(** [for _, v := range r.RowDatas] *)
Fixpoint writeRows (data : list byte) (rows : list (list byte))
    : IO (list byte) :=
  match rows with
  | [] => io_ret data
  | v :: rows' =>
      let data := take 4 data in
      let data := data ++ v in
      writePacket data ;;;
      writeRows data rows'
  end.

(** [Conn.writeResultset]; [errors.Trace] keeps the error it wraps. *)
Definition writeResultset (status : Z) (r : Resultset) : IO unit :=
  fun c =>
    let c := mkConn (int64 (-1)) (io c) in
    let columnLen := PutLengthEncodedInt (Z.of_nat (length (Fields r))) in
    let data := AllocBytesWithLen4 in
    let data := data ++ columnLen in
    (writePacket data ;;;
     data <- writeFields data (Fields r) ;;
     writeEOF status ;;;
     data <- writeRows data (RowDatas r) ;;
     writeEOF status ;;;
     flush) c.

(** A run of packet writes, as the transport sees it: the payloads go
    out in order until one is refused. *)
Fixpoint send (payloads : list (list byte)) : IO unit :=
  match payloads with
  | [] => io_ret tt
  | p :: payloads' =>
      fun c =>
        let k := length (io c) in
        if io_fails k then (Err (ErrWrite k), c)
        else send payloads' (mkConn (affectedRows c) (io c ++ [EvPacket p]))
  end.

(** The payloads of a resultset in wire order: column count, field
    descriptors, EOF, rows, EOF. *)
Definition resultset_packets (status : Z) (fields : list Field)
    (rows : list (list byte)) : list (list byte) :=
  [PutLengthEncodedInt (Z.of_nat (length fields))]
  ++ (Dump <$> fields)
  ++ [eof_payload status]
  ++ rows
  ++ [eof_payload status].

End Write.

(** A value of a category [formatField] accepts. *)
Definition supported (v : value) : Prop :=
  match v with VOther _ => False | _ => True end.

(** Some row of [values] has a width other than [n]. *)
Definition has_mismatch (n : nat) (values : list (list value)) : Prop :=
  exists k vs, values !! k = Some vs /\ length vs <> n.

(** [k] is the first row of [values] whose width is not [n]. *)
Definition first_mismatch (n : nat) (values : list (list value)) (k : nat)
    : Prop :=
  (exists vs, values !! k = Some vs /\ length vs <> n)
  /\ forall k' vs', (k' < k)%nat -> values !! k' = Some vs' -> length vs' = n.

Section Encoding.
Context `{Externals}.

(** One value of a row buffer, for a field of wire type [t] and
    signedness [u]: the NULL byte, or the rendered value behind its
    length. *)
Definition encode_value (t : Z) (u : bool) (v : value) : list byte :=
  if is_nil v then [xfb]
  else PutLengthEncodedString (Raw (uint8 t) v u).

(** The descriptor of a column of the first row: named after the column,
    formatted from the sample value, then given the schema's type,
    collation and signedness. *)
Definition first_row_field (nt : TableColumn) (v : value) : Field :=
  set_IsUnsigned (Column_IsUnsigned nt)
    (set_Charset (uint16 (CollationNames (Column_Collation nt)))
       (set_Type (Column_SqlType nt)
          (fst (formatField (set_Name (Column_Name nt) zero_Field) v)))).

(** The buffer of the first row: every value under its column's type. *)
Definition encode_first_row (nameTypes : list TableColumn)
    (vs : list value) : list byte :=
  concat
    (zip_with
       (fun nt v => encode_value (Column_SqlType nt) (Column_IsUnsigned nt) v)
       nameTypes vs).

(** The buffer of a later row: every value under the zero field. *)
Definition encode_later_row (vs : list value) : list byte :=
  concat (encode_value 0 false <$> vs).

(** What [buildResultset] returns for rows of the right width. *)
Definition resultset_of (nameTypes : list TableColumn)
    (values : list (list value)) : Resultset :=
  match values with
  | [] => mkResultset (replicate (length nameTypes) None) []
  | row0 :: rest =>
      mkResultset
        (Some <$> zip_with first_row_field nameTypes row0)
        (encode_first_row nameTypes row0 :: (encode_later_row <$> rest))
  end.

(** Every row has [n] columns, and the first row holds only values of
    supported types. *)
Definition well_formed_rows (n : nat) (values : list (list value)) : Prop :=
  Forall (fun vs => length vs = n) values
  /\ forall row0, values !! 0%nat = Some row0 -> Forall supported row0.

End Encoding.

(** The connection [c'] is [c] with the affected-row count reset and
    more events on the wire. *)
Definition written_from (c c' : Conn) : Prop :=
  exists evs, io c' = io c ++ evs.

(** A computation that leaves the affected-row count alone and only adds
    events to the wire, however it ends. *)
Definition appends_only {A} (m : IO A) : Prop :=
  forall c,
    affectedRows (snd (m c)) = affectedRows c /\ written_from c (snd (m c)).

(** A sample of the externals, for closed examples: integers are rendered
    in decimal, strings and byte slices as they are, and the collation
    table knows the binary and the default utf8 collation. *)
Definition sample_externals : Externals := {|
  Raw := fun _ v _ =>
    match v with
    | VInt _ n | VUint _ n => String.list_byte_of_string (pretty n)
    | VString s => String.list_byte_of_string s
    | VBytes b => b
    | _ => []
    end;
  CollationNames := fun s =>
    if String.eqb s "binary" then 63
    else if String.eqb s "utf8_general_ci" then 33
    else 0;
  Dump := fun f => String.list_byte_of_string (Field_Name f);
  eof_payload := fun status =>
    [xfe; x00; x00; byte_of_Z status; byte_of_Z (Z.shiftr status 8)]
|}.

End Proxy.

(** ** Package tabletserver: schema registry and plan cache *)
Module Tabletserver.
Import Schema.

(** *** ExecPlan and its statistics *)

(** [ExecPlan]: the embedded plan contributes its table name; the four
    counters are [int64] ([time.Duration] is an [int64]). *)
Record ExecPlan := mkExecPlan {
  TableName : string;
  QueryCount : Z;
  Time : Z;
  RowCount : Z;
  ErrorCount : Z
}.

(** [ExecPlan.Size] *)
Definition Size (ep : ExecPlan) : Z := 1.

(** [ExecPlan.AddStats], the critical section run without interference. *)
Definition AddStats (queryCount duration rowCount errorCount : Z)
    (ep : ExecPlan) : ExecPlan :=
  mkExecPlan (TableName ep)
    (int64 (QueryCount ep + queryCount))
    (int64 (Time ep + duration))
    (int64 (RowCount ep + rowCount))
    (int64 (ErrorCount ep + errorCount)).

(** [ExecPlan.Stats] *)
Definition Stats (ep : ExecPlan) : Z * Z * Z * Z :=
  (QueryCount ep, Time ep, RowCount ep, ErrorCount ep).

(** *** AddStats under concurrent callers

    Each caller is a goroutine running the body of [AddStats] one memory
    access at a time: take the mutex, then for each counter read it and
    write back the sum, then release the mutex. *)

Inductive counter := CQuery | CTime | CRow | CError.

#[export] Instance counter_eq_dec : EqDecision counter.
Proof. solve_decision. Defined.

Definition get (k : counter) (ep : ExecPlan) : Z :=
  match k with
  | CQuery => QueryCount ep
  | CTime => Time ep
  | CRow => RowCount ep
  | CError => ErrorCount ep
  end.

Definition set (k : counter) (n : Z) (ep : ExecPlan) : ExecPlan :=
  match k with
  | CQuery => mkExecPlan (TableName ep) n (Time ep) (RowCount ep) (ErrorCount ep)
  | CTime => mkExecPlan (TableName ep) (QueryCount ep) n (RowCount ep) (ErrorCount ep)
  | CRow => mkExecPlan (TableName ep) (QueryCount ep) (Time ep) n (ErrorCount ep)
  | CError => mkExecPlan (TableName ep) (QueryCount ep) (Time ep) (RowCount ep) n
  end.

(** The arguments of one call. *)
Record call := mkCall {
  arg_queryCount : Z;
  arg_duration : Z;
  arg_rowCount : Z;
  arg_errorCount : Z
}.

Definition arg (k : counter) (c : call) : Z :=
  match k with
  | CQuery => arg_queryCount c
  | CTime => arg_duration c
  | CRow => arg_rowCount c
  | CError => arg_errorCount c
  end.

(** Where a goroutine stands inside [AddStats]. *)
Inductive pc :=
| AtLock
| AtLoad (k : counter)
| AtStore (k : counter) (tmp : Z)
| AtUnlock
| Finished.

(** The statement after [x += v] for counter [k]. *)
Definition after_store (k : counter) : pc :=
  match k with
  | CQuery => AtLoad CTime
  | CTime => AtLoad CRow
  | CRow => AtLoad CError
  | CError => AtUnlock
  end.

(** The shared plan with its mutex ([mu_locked]). *)
Record shared := mkShared {
  plan : ExecPlan;
  mu_locked : bool
}.

(** One step of a goroutine; [None] when it cannot move (blocked on the
    mutex, or finished). *)
Definition goroutine_step (c : call) (p : pc) (sh : shared)
    : option (pc * shared) :=
  match p with
  | AtLock =>
      if mu_locked sh then None
      else Some (AtLoad CQuery, mkShared (plan sh) true)
  | AtLoad k => Some (AtStore k (get k (plan sh)), sh)
  | AtStore k tmp =>
      Some (after_store k,
            mkShared (set k (int64 (tmp + arg k c)) (plan sh)) (mu_locked sh))
  | AtUnlock => Some (Finished, mkShared (plan sh) false)
  | Finished => None
  end.

(** The system: the shared plan and the goroutines with their calls. *)
Record system := mkSystem {
  sys_shared : shared;
  sys_goroutines : list (call * pc)
}.

(** The scheduler lets goroutine [i] take one step. *)
Definition sched_step (i : nat) (s : system) : option system :=
  match sys_goroutines s !! i with
  | None => None
  | Some (c, p) =>
      match goroutine_step c p (sys_shared s) with
      | None => None
      | Some (p', sh') =>
          Some (mkSystem sh' (<[i := (c, p')]> (sys_goroutines s)))
      end
  end.

(** An interleaving is the list of goroutines scheduled, in order. *)
Fixpoint run (schedule : list nat) (s : system) : option system :=
  match schedule with
  | [] => Some s
  | i :: schedule' =>
      match sched_step i s with
      | None => None
      | Some s' => run schedule' s'
      end
  end.

Definition start (ep : ExecPlan) (calls : list call) : system :=
  mkSystem (mkShared ep false) (map (fun c => (c, AtLock)) calls).

Definition all_finished (s : system) : Prop :=
  Forall (fun g => snd g = Finished) (sys_goroutines s).

(** The calls applied one after the other. *)
Definition AddStats_all (calls : list call) (ep : ExecPlan) : ExecPlan :=
  fold_left
    (fun ep c =>
       AddStats (arg_queryCount c) (arg_duration c) (arg_rowCount c)
         (arg_errorCount c) ep)
    calls ep.

(** Sum of one argument over the calls. *)
Definition sum_arg (k : counter) (calls : list call) : Z :=
  foldr (fun c acc => arg k c + acc) 0 calls.

Definition zero_plan (name : string) : ExecPlan := mkExecPlan name 0 0 0 0.

(** What [Stats] must return once all the calls are in. *)
Definition expected_stats (calls : list call) : Z * Z * Z * Z :=
  (int64 (sum_arg CQuery calls), int64 (sum_arg CTime calls),
   int64 (sum_arg CRow calls), int64 (sum_arg CError calls)).

(** The order in which [AddStats] updates the counters. *)
Definition idx (k : counter) : nat :=
  match k with CQuery => 0 | CTime => 1 | CRow => 2 | CError => 3 end.

(** Whether a goroutine at [p] has already written counter [k]. *)
Definition stored (k : counter) (p : pc) : bool :=
  match p with
  | AtLock => false
  | AtLoad k' | AtStore k' _ => (idx k <? idx k')%nat
  | AtUnlock | Finished => true
  end.

(** What a goroutine has added to counter [k] so far. *)
Definition contrib (k : counter) (g : call * pc) : Z :=
  if stored k (snd g) then arg k (fst g) else 0.

(** 1 for a goroutine between [Lock] and [Unlock], 0 otherwise. *)
Definition in_critical (g : call * pc) : Z :=
  match snd g with
  | AtLock | Finished => 0
  | _ => 1
  end.

Definition total (f : call * pc -> Z) (gs : list (call * pc)) : Z :=
  foldr (fun g acc => f g + acc) 0 gs.

(** The invariant of the system: every counter holds what has been added
    to it, the mutex is held exactly when one goroutine is inside, and a
    value read inside is still the value of the counter. *)
Record consistent (s : system) : Prop := mkConsistent {
  counters_ok : forall k,
    get k (plan (sys_shared s))
    = int64 (total (contrib k) (sys_goroutines s));
  mutex_ok :
    total in_critical (sys_goroutines s)
    = if mu_locked (sys_shared s) then 1 else 0;
  loads_ok : forall i c k tmp,
    sys_goroutines s !! i = Some (c, AtStore k tmp) ->
    tmp = get k (plan (sys_shared s))
}.

(** Steps a goroutine still has to take. *)
Definition remaining (g : call * pc) : nat :=
  match snd g with
  | AtLock => 10
  | AtLoad k => 9 - 2 * idx k
  | AtStore k _ => 8 - 2 * idx k
  | AtUnlock => 1
  | Finished => 0
  end.

Definition steps_left (gs : list (call * pc)) : nat :=
  foldr (fun g acc => (remaining g + acc)%nat) 0%nat gs.

(** *** The plan cache *)

(** Modelled from the spec: the LRU plan cache ([cache.LRUCache], an
    imported package), keyed by SQL text, most recently used entry first,
    each entry charged [Size] against the capacity. *)
Record LRUCache := mkLRUCache {
  lru_entries : list (string * ExecPlan);
  lru_capacity : Z
}.

Definition lru_size (q : LRUCache) : Z :=
  foldr (fun e acc => Size (snd e) + acc) 0 (lru_entries q).

(** [LRUCache.Clear] *)
Definition Clear (q : LRUCache) : LRUCache := mkLRUCache [] (lru_capacity q).

(** Entries are dropped from the least recently used end while the cache
    is over capacity. *)
Fixpoint checkCapacity (oldest_first : list (string * ExecPlan))
    (size capacity : Z) : list (string * ExecPlan) :=
  match oldest_first with
  | [] => []
  | e :: rest =>
      if capacity <? size then checkCapacity rest (size - Size (snd e)) capacity
      else oldest_first
  end.

(** [LRUCache.SetCapacity] *)
Definition SetCapacity (capacity : Z) (q : LRUCache) : LRUCache :=
  mkLRUCache
    (rev (checkCapacity (rev (lru_entries q)) (lru_size q) capacity))
    capacity.

(** *** Tables, row caches and overrides *)

(** Modelled from the spec: a row cache ([RowCache], defined outside the
    sources), identified by the table it was built for and the prefix the
    pool gave it. Two tables alias one cache when they hold the same one. *)
Record RowCache := mkRowCache {
  rc_table : string;
  rc_prefix : Z
}.

(** Modelled from the spec: the row-cache pool ([CachePool], defined
    outside the sources), with its open/closed state and the count of
    prefixes handed out. *)
Record CachePool := mkCachePool {
  pool_closed : bool;
  maxPrefix : Z
}.

Definition IsClosed (cp : CachePool) : bool := pool_closed cp.

(** [TableInfo], restricted to the members this code reads and writes; a
    nil [Cache] is [None]. *)
Record TableInfo := mkTableInfo {
  Table_Name : string;
  Table_PK : list string;
  Table_CacheType : CacheType;
  Table_Cache : option RowCache
}.

Definition set_CacheType (t : CacheType) (ti : TableInfo) : TableInfo :=
  mkTableInfo (Table_Name ti) (Table_PK ti) t (Table_Cache ti).
Definition set_Cache (c : option RowCache) (ti : TableInfo) : TableInfo :=
  mkTableInfo (Table_Name ti) (Table_PK ti) (Table_CacheType ti) c.

(** Modelled from the spec: [NewRowCache], the per-table cache constructor
    taking the registry entry and the pool; every cache gets a fresh
    prefix from the pool. *)
Definition NewRowCache (table : TableInfo) (cp : CachePool)
    : RowCache * CachePool :=
  let n := int64 (maxPrefix cp + 1) in
  (mkRowCache (Table_Name table) n, mkCachePool (pool_closed cp) n).

Record OverrideCacheDesc := mkOverrideCacheDesc {
  Desc_Type : string;
  Desc_Prefix : string;
  Desc_Table : string
}.

(** [SchemaOverride]; a nil [PKColumns] and a nil [Cache] are [None]. *)
Record SchemaOverride := mkSchemaOverride {
  Override_Name : string;
  Override_PKColumns : option (list string);
  Override_Cache : option OverrideCacheDesc
}.

(** [SchemaInfo]; [tables] maps a name to the table it points to. *)
Record SchemaInfo := mkSchemaInfo {
  tables : gmap string TableInfo;
  overrides : list SchemaOverride;
  queries : LRUCache;
  cachePool : CachePool
}.

Definition set_tables (t : gmap string TableInfo) (si : SchemaInfo) :=
  mkSchemaInfo t (overrides si) (queries si) (cachePool si).
Definition set_queries (q : LRUCache) (si : SchemaInfo) :=
  mkSchemaInfo (tables si) (overrides si) q (cachePool si).
Definition set_cachePool (cp : CachePool) (si : SchemaInfo) :=
  mkSchemaInfo (tables si) (overrides si) (queries si) cp.

(** How a call ends: it returns, the process exits ([log.Fatal],
    [log.Fatalf]), or the goroutine panics. *)
Inductive outcome (A : Type) :=
| Returns (a : A)
| Exits
| Panics.
Arguments Returns {A} a.
Arguments Exits {A}.
Arguments Panics {A}.

(** The collaborators of [SchemaInfo] that are not among the sources.
    - [PopConn_ok]: the connection pool hands out a connection;
    - [Execute sql]: the rows of a metadata query, [None] on error;
    - [BuildValue]: [sqltypes.BuildValue], [None] on error;
    - [NewTableInfo name type create_time comment pool]: the table read
      from the store ([None] on error) and the pool afterwards;
    - [SetPK cols table]: the table afterwards and whether it succeeded. *)
Class Backend := {
  PopConn_ok : bool;
  Execute : string -> option (list (list value));
  BuildValue : value -> option value;
  NewTableInfo :
    string -> list byte -> value -> list byte -> CachePool ->
    option TableInfo * CachePool;
  SetPK : list string -> TableInfo -> TableInfo * bool
}.

Definition base_show_tables : string :=
  "select table_name, table_type, unix_timestamp(create_time), table_comment from information_schema.tables where table_schema = database()".

(** [fmt.Sprintf("%s and table_name = '%s'", base_show_tables, tableName)] *)
Definition show_table_query (tableName : string) : string :=
  base_show_tables +:+ " and table_name = '" +:+ tableName +:+ "'".

Section Schema_info.
Context `{Backend}.

(** The body of the loop of [SchemaInfo.override] for one rule. [table]
    is a pointer into [si.tables], so each assignment to one of its
    members is written to the registry at once. *)
Definition override_rule (override : SchemaOverride) (si : SchemaInfo)
    : SchemaInfo :=
  let name := Override_Name override in
  match tables si !! name with
  | None => si
  | Some table =>
      let '(si, pk_ok) :=
        match Override_PKColumns override with
        | None => (si, true)
        | Some cols =>
            let '(table, ok) := SetPK cols table in
            (set_tables (<[name := table]> (tables si)) si, ok)
        end in
      if negb pk_ok then si
      else if IsClosed (cachePool si) then si
      else
        match Override_Cache override with
        | None => si
        | Some desc =>
            if String.eqb (Desc_Type desc) "RW" then
              let si :=
                set_tables (alter (set_CacheType CACHE_RW) name (tables si)) si in
              match tables si !! name with
              | None => si
              | Some table =>
                  let '(rc, cp) := NewRowCache table (cachePool si) in
                  let si := set_cachePool cp si in
                  set_tables (alter (set_Cache (Some rc)) name (tables si)) si
              end
            else if String.eqb (Desc_Type desc) "W" then
              let si :=
                set_tables (alter (set_CacheType CACHE_W) name (tables si)) si in
              if (String.length (Desc_Table desc) =? 0)%nat then si
              else
                match tables si !! Desc_Table desc with
                | None => si
                | Some totable =>
                    match Table_Cache totable with
                    | None => si
                    | Some rc =>
                        set_tables
                          (alter (set_Cache (Some rc)) name (tables si)) si
                    end
                end
            else si
        end
  end.

(** [SchemaInfo.override] *)
Definition override (si : SchemaInfo) : SchemaInfo :=
  fold_left (fun si o => override_rule o si) (overrides si) si.

(** [SchemaInfo.CreateOrUpdateTable]: the outcome and the state it leaves.
    The deferred [PushConn] gives the connection back and does not touch
    [SchemaInfo]. *)
Definition CreateOrUpdateTable (tableName : string) (si : SchemaInfo)
    : outcome unit * SchemaInfo :=
  if negb PopConn_ok then (Exits, si)
  else
    match Execute (show_table_query tableName) with
    | None => (Exits, si)
    | Some [] => (Returns tt, si)
    | Some (row0 :: _) =>
        match row0 !! 2%nat with
        | None => (Panics, si)
        | Some v2 =>
            match BuildValue v2 with
            | None => (Returns tt, si)
            | Some create_time =>
                match row0 !! 1%nat, row0 !! 3%nat with
                | Some (VBytes table_type), Some (VBytes table_comment) =>
                    let '(ti, cp) :=
                      NewTableInfo tableName table_type create_time
                        table_comment (cachePool si) in
                    let si := set_cachePool cp si in
                    match ti with
                    | None => (Returns tt, si)
                    | Some tableInfo =>
                        let si :=
                          if bool_decide (is_Some (tables si !! tableName))
                          then set_queries (Clear (queries si)) si
                          else si in
                        let si :=
                          set_tables (<[tableName := tableInfo]> (tables si)) si in
                        if bool_decide (Table_CacheType tableInfo = CACHE_NONE)
                        then (Returns tt, si)
                        else
                          match Table_Cache tableInfo with
                          | None => (Panics, si)
                          | Some _ => (Returns tt, si)
                          end
                    end
                | _, _ => (Panics, si)
                end
            end
        end
    end.

(** The tail of [NewSchemaInfo]: every override's table is loaded, then
    the overrides are applied. *)
Fixpoint load_tables (ors : list SchemaOverride) (si : SchemaInfo)
    : outcome unit * SchemaInfo :=
  match ors with
  | [] => (Returns tt, si)
  | o :: ors' =>
      match CreateOrUpdateTable (Override_Name o) si with
      | (Returns _, si') => load_tables ors' si'
      | stop => stop
      end
  end.

Definition load_and_override (si : SchemaInfo) : outcome unit * SchemaInfo :=
  match load_tables (overrides si) si with
  | (Returns _, si') => (Returns tt, override si')
  | stop => stop
  end.

(** [SchemaInfo.SetQueryCacheSize] *)
Definition SetQueryCacheSize (size : Z) (si : SchemaInfo)
    : outcome unit * SchemaInfo :=
  if size <=? 0 then (Exits, si)
  else (Returns tt, set_queries (SetCapacity (int64 size) (queries si)) si).

End Schema_info.

(** A sample store, for closed examples: it knows one table, [users],
    which loads as an uncached table; [SetPK] accepts every column list. *)
Definition sample_backend : Backend := {|
  PopConn_ok := true;
  Execute := fun sql =>
    if String.eqb sql (show_table_query "users") then
      Some [[VBytes (String.list_byte_of_string "users");
             VBytes (String.list_byte_of_string "BASE TABLE");
             VInt KInt64 1420070400;
             VBytes []]]
    else Some [];
  BuildValue := fun v => Some v;
  NewTableInfo := fun name _ _ _ cp =>
    (Some (mkTableInfo name [] CACHE_NONE None), cp);
  SetPK := fun cols table =>
    (mkTableInfo (Table_Name table) cols (Table_CacheType table)
       (Table_Cache table), true)
|}.

(** A registry that holds the uncached table [users], two cached plans,
    an open cache pool, and the override list [ors]. *)
Definition sample_schema (ors : list SchemaOverride) : SchemaInfo :=
  mkSchemaInfo
    {[ "users" := mkTableInfo "users" [] CACHE_NONE None ]}
    ors
    (mkLRUCache
       [("select 1", zero_plan ""); ("select * from users", zero_plan "users")]
       (128 * 1024 * 1024))
    (mkCachePool false 0).

(** A write-only override of [users] that aliases the cache of [target]. *)
Definition write_only_rule (target : string) : SchemaOverride :=
  mkSchemaOverride "users" None (Some (mkOverrideCacheDesc "W" "" target)).

(** *** The rest of the registry *)

(** [SchemaInfo.DropTable] *)
Definition DropTable (tableName : string) (si : SchemaInfo) : SchemaInfo :=
  let si := set_tables (delete tableName (tables si)) si in
  set_queries (Clear (queries si)) si.

(** [SchemaInfo.GetTable]; a nil result is [None]. *)
Definition GetTable (tableName : string) (si : SchemaInfo)
    : option TableInfo :=
  tables si !! tableName.

Section Construction.
Context `{Backend}.

(** [NewSchemaInfo]: [opened] tells whether [mysql.Open] gave a
    connection pool. Modelled from the spec: [NewCachePool] followed by
    [Open] gives an open pool that has handed out no prefix yet. *)
Definition NewSchemaInfo (opened : bool) (overrides : list SchemaOverride)
    : outcome unit * SchemaInfo :=
  let si :=
    mkSchemaInfo ∅ [] (mkLRUCache [] (128 * 1024 * 1024))
      (mkCachePool true 0) in
  if negb opened then (Exits, si)
  else
    let si := mkSchemaInfo (tables si) overrides (queries si) (cachePool si) in
    let si := set_cachePool (mkCachePool false (maxPrefix (cachePool si))) si in
    load_and_override si.

End Construction.

(** The three statistics [getTableStats] reports per table. *)
Inductive stat_kind := Hits | Absent | Misses.

Definition stat_suffix (s : stat_kind) : string :=
  match s with Hits => ".Hits" | Absent => ".Absent" | Misses => ".Misses" end.

Definition stat_value (s : stat_kind) (st : Z * Z * Z * Z) : Z :=
  let '(hits, absent, misses, _) := st in
  match s with Hits => hits | Absent => absent | Misses => misses end.

Section Table_stats.

(** [v.Stats()] for the table [v] registered under [k]: hits, absent,
    misses and invalidations, kept by the table outside the members
    modelled here. *)
Variable TableInfo_Stats : string -> TableInfo -> Z * Z * Z * Z.

(** The body of the loop of [SchemaInfo.getTableStats] for the table [v]
    registered under [k]. *)
Definition getTableStats_body (tstats : gmap string Z)
    (kv : string * TableInfo) : gmap string Z :=
  let '(k, v) := kv in
  if bool_decide (Table_CacheType v <> CACHE_NONE) then
    let '(hits, absent, misses, _) := TableInfo_Stats k v in
    let tstats := <[k +:+ ".Hits" := hits]> tstats in
    let tstats := <[k +:+ ".Absent" := absent]> tstats in
    <[k +:+ ".Misses" := misses]> tstats
  else tstats.

(** [SchemaInfo.getTableStats]: Go ranges over the registry in an order
    of its choosing, so the loop takes the entries of [si.tables] as the
    list [entries], in the order they are visited. *)
Definition getTableStats (entries : list (string * TableInfo))
    : gmap string Z :=
  fold_left getTableStats_body entries ∅.

(** The body of the loop of [SchemaInfo.getTableInvalidations]. *)
Definition getTableInvalidations_body (tstats : gmap string Z)
    (kv : string * TableInfo) : gmap string Z :=
  let '(k, v) := kv in
  if bool_decide (Table_CacheType v <> CACHE_NONE) then
    let '(_, _, _, invalidations) := TableInfo_Stats k v in
    <[k := invalidations]> tstats
  else tstats.

(** [SchemaInfo.getTableInvalidations], over the entries as visited. *)
Definition getTableInvalidations (entries : list (string * TableInfo))
    : gmap string Z :=
  fold_left getTableInvalidations_body entries ∅.

End Table_stats.

(** [entries] lists the registry of [si], in some order. *)
Definition visits (si : SchemaInfo) (entries : list (string * TableInfo))
    : Prop :=
  entries ≡ₚ map_to_list (tables si).

#[export] Instance pc_eq_dec : EqDecision pc.
Proof. solve_decision. Defined.

(** The calls of the goroutines that have run [AddStats] to the end. *)
Definition finished_calls (gs : list (call * pc)) : list call :=
  fst <$> filter (fun g => snd g = Finished) gs.

(** More samples for closed examples: a registry with nothing in it, one
    in which [orders] owns a cache and [users] has none, one in which
    neither has, and table counters that are the same for every table. *)
Definition empty_schema : SchemaInfo :=
  mkSchemaInfo ∅ []
    (mkLRUCache [("select 1", zero_plan "")] 1024) (mkCachePool false 0).

Definition cached_schema : SchemaInfo :=
  mkSchemaInfo
    (<["orders" := mkTableInfo "orders" [] CACHE_RW
                     (Some (mkRowCache "orders" 1))]>
       {[ "users" := mkTableInfo "users" [] CACHE_NONE None ]})
    [] (mkLRUCache [] 1024) (mkCachePool false 1).

Definition uncached_schema : SchemaInfo :=
  mkSchemaInfo
    (<["orders" := mkTableInfo "orders" [] CACHE_NONE None]>
       {[ "users" := mkTableInfo "users" [] CACHE_NONE None ]})
    [] (mkLRUCache [] 1024) (mkCachePool false 0).

Definition sample_table_stats : string -> TableInfo -> Z * Z * Z * Z :=
  fun _ _ => (5, 1, 2, 7).

End Tabletserver.

(** * Properties *)

Section EncoderProperties.
Import Mysql Schema Proxy.
Context `{Externals}.

(** C5: [formatField] sets the wire attributes by the category of the
    sample value: signed integers give long-long, binary and not-null
    flags and charset 63; unsigned integers the same with the unsigned
    flag added; floats only charset 63; strings and byte slices the
    variable-length string type and charset 33; nil changes nothing and
    is no error; anything else is an unsupported-type error that names
    the type, and leaves the field as it was. *)
Theorem formatField_by_category (field : Field) :
  (forall k n,
      formatField field (VInt k n) =
        (mkField (Field_Name field) 63 MYSQL_TYPE_LONGLONG
           (Z.lor BINARY_FLAG NOT_NULL_FLAG) (Field_IsUnsigned field), None)
      /\ Z.land (Z.lor BINARY_FLAG NOT_NULL_FLAG) UNSIGNED_FLAG = 0)
  /\ (forall k n,
      formatField field (VUint k n) =
        (mkField (Field_Name field) 63 MYSQL_TYPE_LONGLONG
           (Z.lor (Z.lor BINARY_FLAG NOT_NULL_FLAG) UNSIGNED_FLAG)
           (Field_IsUnsigned field), None))
  /\ (forall k bits,
      formatField field (VFloat k bits) =
        (mkField (Field_Name field) 63 (Field_Type field) (Field_Flag field)
           (Field_IsUnsigned field), None))
  /\ (forall s,
      formatField field (VString s) =
        (mkField (Field_Name field) 33 MYSQL_TYPE_VARCHAR (Field_Flag field)
           (Field_IsUnsigned field), None))
  /\ (forall b,
      formatField field (VBytes b) =
        (mkField (Field_Name field) 33 MYSQL_TYPE_VARCHAR (Field_Flag field)
           (Field_IsUnsigned field), None))
  /\ formatField field VNil = (field, None)
  /\ (forall ty,
      formatField field (VOther ty) = (field, Some (ErrUnsupported ty))).
Proof.
  repeat split; intros; reflexivity.
Qed.

Lemma formatField_supported field v :
  supported v -> exists field', formatField field v = (field', None).
Proof. destruct v; simpl; intros Hs; try contradiction; eauto. Qed.

Lemma formatField_outcome field v :
  (exists field', formatField field v = (field', None))
  \/ (exists ty, formatField field v = (field, Some (ErrUnsupported ty))).
Proof. destruct v; simpl; eauto. Qed.

(** After the first row, a row of the right width is encoded without
    touching the field slots. *)
Lemma buildRow_later_rows nameTypes i vs : forall j fields row,
  i <> 0%nat ->
  exists row', buildRow nameTypes i j vs fields row = Ok (fields, row').
Proof.
  induction vs as [|v vs IH]; intros j fields row Hi; simpl.
  - eauto.
  - destruct (Nat.eqb_spec i 0) as [->|_]; [done|]. apply IH, Hi.
Qed.

(** A row of the right width never panics: it is encoded, or one of its
    values is of an unsupported type. The slots keep their number. *)
Lemma buildRow_first_row nameTypes vs : forall j fields row,
  length fields = length nameTypes ->
  (j + length vs)%nat = length nameTypes ->
  (exists fields' row',
      buildRow nameTypes 0 j vs fields row = Ok (fields', row')
      /\ length fields' = length nameTypes)
  \/ (exists ty,
      buildRow nameTypes 0 j vs fields row = Err (ErrUnsupported ty)).
Proof.
  induction vs as [|v vs IH]; intros j fields row Hlen Hj; simpl.
  - left. eauto.
  - simpl in Hj.
    assert (Hjl : (j < length fields)%nat) by lia.
    destruct (Nat.ltb_spec j (length fields)) as [_|?]; [simpl|lia].
    destruct (lookup_lt_is_Some_2 nameTypes j) as [nt Hnt]; [lia|].
    rewrite Hnt.
    destruct (formatField_outcome (set_Name (Column_Name nt) zero_Field) v)
      as [[field' ->]|[ty ->]]; [|right; eauto].
    apply IH; [by rewrite length_insert | lia].
Qed.

Lemma buildRow_first_row_supported nameTypes vs : forall j fields row,
  length fields = length nameTypes ->
  (j + length vs)%nat = length nameTypes ->
  Forall supported vs ->
  exists fields' row',
    buildRow nameTypes 0 j vs fields row = Ok (fields', row')
    /\ length fields' = length nameTypes.
Proof.
  induction vs as [|v vs IH]; intros j fields row Hlen Hj Hs; simpl.
  - eauto.
  - simpl in Hj. inversion Hs as [|? ? Hv Hvs]; subst.
    destruct (Nat.ltb_spec j (length fields)) as [_|?]; [simpl|lia].
    destruct (lookup_lt_is_Some_2 nameTypes j) as [nt Hnt]; [lia|].
    rewrite Hnt.
    destruct (formatField_supported (set_Name (Column_Name nt) zero_Field) v Hv)
      as [field' ->].
    apply IH; [by rewrite length_insert | lia | done].
Qed.

Lemma buildRows_later_mismatch nameTypes values : forall i r k vs,
  i <> 0%nat ->
  length (Fields r) = length nameTypes ->
  first_mismatch (length nameTypes) values k ->
  values !! k = Some vs ->
  buildRows nameTypes i values r =
    Err (ErrRowMismatch (i + k) (length vs) (length nameTypes)).
Proof.
  induction values as [|row values IH]; intros i r k vs Hi Hlen Hfirst Hk.
  - done.
  - simpl. destruct k as [|k].
    + simpl in Hk. injection Hk as ->.
      destruct Hfirst as [(vs' & Hvs' & Hne) _]. simpl in Hvs'.
      injection Hvs' as <-.
      rewrite Hlen. destruct (Nat.eqb_spec (length vs) (length nameTypes)); [done|].
      simpl. by rewrite Nat.add_0_r.
    + destruct Hfirst as [Hmis Hbefore].
      assert (Hrow : length row = length nameTypes)
        by (apply (Hbefore 0%nat row); [lia | done]).
      rewrite Hlen, Hrow, Nat.eqb_refl. simpl.
      destruct (buildRow_later_rows nameTypes i row 0 (Fields r) [] Hi)
        as [row' ->].
      rewrite (IH (S i) _ k vs); [f_equal; f_equal; lia | lia | done | | done].
      split; [done|].
      intros k' vs' Hlt Hk'. apply (Hbefore (S k') vs'); [lia | done].
Qed.

Lemma buildRows_later_fails nameTypes values : forall i r,
  i <> 0%nat ->
  length (Fields r) = length nameTypes ->
  has_mismatch (length nameTypes) values ->
  exists e, buildRows nameTypes i values r = Err e.
Proof.
  induction values as [|row values IH]; intros i r Hi Hlen (k & vs & Hk & Hne).
  - done.
  - simpl. rewrite Hlen.
    destruct (Nat.eqb_spec (length row) (length nameTypes)) as [Hrow|]; simpl;
      [|eauto].
    destruct (buildRow_later_rows nameTypes i row 0 (Fields r) [] Hi)
      as [row' ->].
    apply IH; [lia | done |].
    destruct k as [|k]; [simpl in Hk; congruence|].
    exists k, vs. done.
Qed.

Lemma replicate_None_length (nameTypes : list TableColumn) :
  length (replicate (length nameTypes) (@None Field)) = length nameTypes.
Proof. apply length_replicate. Qed.

(** C7 (amended): when some row has a column count other than the number
    of metadata columns, [buildResultset] fails and returns no resultset;
    the error names the first such row, its column count and the metadata
    count, provided row 0, when it is not that row, holds only values of
    supported types (otherwise the unsupported-type error comes first). *)
Theorem buildResultset_row_mismatch (nameTypes : list TableColumn)
    (values : list (list value)) :
  has_mismatch (length nameTypes) values ->
  (exists e, buildResultset nameTypes values = Err e)
  /\ forall k vs,
      first_mismatch (length nameTypes) values k ->
      values !! k = Some vs ->
      (forall row0, (0 < k)%nat -> values !! 0%nat = Some row0 ->
                    Forall supported row0) ->
      buildResultset nameTypes values =
        Err (ErrRowMismatch k (length vs) (length nameTypes)).
Proof.
  intros Hmis. unfold buildResultset.
  pose proof (replicate_None_length nameTypes) as Hlen.
  destruct values as [|row0 rest].
  { destruct Hmis as (k & vs & Hk & _). done. }
  split.
  - simpl. rewrite Hlen.
    destruct (Nat.eqb_spec (length row0) (length nameTypes)) as [Hrow|];
      simpl; [|eauto].
    destruct (buildRow_first_row nameTypes row0 0 _ [] Hlen Hrow)
      as [(fields' & row' & -> & Hlen')|[ty ->]]; [|eauto].
    apply buildRows_later_fails; [lia | done |].
    destruct Hmis as (k & vs & Hk & Hne).
    destruct k as [|k]; [simpl in Hk; congruence|].
    exists k, vs. done.
  - intros k vs Hfirst Hk Hsup. simpl. rewrite Hlen.
    destruct k as [|k].
    + simpl in Hk. injection Hk as ->.
      destruct Hfirst as [(vs' & Hvs' & Hne) _]. simpl in Hvs'.
      injection Hvs' as <-.
      by destruct (Nat.eqb_spec (length vs) (length nameTypes)).
    + destruct Hfirst as [Hm Hbefore].
      assert (Hrow : length row0 = length nameTypes)
        by (apply (Hbefore 0%nat row0); [lia | done]).
      rewrite Hrow, Nat.eqb_refl. simpl.
      destruct (buildRow_first_row_supported nameTypes row0 0 _ [] Hlen Hrow)
        as (fields' & row' & -> & Hlen').
      { apply Hsup; [lia | done]. }
      rewrite (buildRows_later_mismatch nameTypes rest 1 _ k vs);
        [done | lia | done | | done].
      split; [done|].
      intros k' vs' Hlt Hk'. apply (Hbefore (S k') vs'); [lia | done].
Qed.

(** The resultset built from the row {id: 7, name: "alice", score: nil},
    for any three-column metadata. *)
Lemma buildResultset_one_row (t1 t2 t3 : Z) (c1 c2 c3 : string)
    (u1 u2 u3 : bool) :
  buildResultset
    [mkTableColumn "id" t1 c1 u1; mkTableColumn "name" t2 c2 u2;
     mkTableColumn "score" t3 c3 u3]
    [[VInt KInt 7; VString "alice"; VNil]]
  = Ok (mkResultset
          [Some (mkField "id" (uint16 (CollationNames c1)) t1
                   (Z.lor BINARY_FLAG NOT_NULL_FLAG) u1);
           Some (mkField "name" (uint16 (CollationNames c2)) t2 0 u2);
           Some (mkField "score" (uint16 (CollationNames c3)) t3 0 u3)]
          [PutLengthEncodedString (Raw (uint8 t1) (VInt KInt 7) u1)
           ++ PutLengthEncodedString (Raw (uint8 t2) (VString "alice") u2)
           ++ [xfb]]).
Proof.
  unfold buildResultset. simpl.
  unfold set_IsUnsigned, set_Charset, set_Type, set_Flag, set_Name. simpl.
  by rewrite <- !app_assoc.
Qed.

(** C6: the row {id: 7 (signed int), name: "alice", score: nil} with
    matching metadata (a long-long column in the binary collation, a
    varchar column in a utf8 collation, and any third column) gives three
    field descriptors (long-long with the binary and not-null flags for
    id, varchar in charset 33 for name, the schema's type, collation and
    signedness for score) and one row buffer made of two length-prefixed
    encodings followed by the single NULL byte 0xfb. *)
Theorem buildResultset_alice (c1 c2 c3 : string) (t3 : Z) (u3 : bool) :
  CollationNames c1 = 63 ->
  CollationNames c2 = 33 ->
  buildResultset
    [mkTableColumn "id" MYSQL_TYPE_LONGLONG c1 false;
     mkTableColumn "name" MYSQL_TYPE_VARCHAR c2 false;
     mkTableColumn "score" t3 c3 u3]
    [[VInt KInt 7; VString "alice"; VNil]]
  = Ok (mkResultset
          [Some (mkField "id" 63 MYSQL_TYPE_LONGLONG
                   (Z.lor BINARY_FLAG NOT_NULL_FLAG) false);
           Some (mkField "name" 33 MYSQL_TYPE_VARCHAR 0 false);
           Some (mkField "score" (uint16 (CollationNames c3)) t3 0 u3)]
          [PutLengthEncodedString
             (Raw MYSQL_TYPE_LONGLONG (VInt KInt 7) false)
           ++ PutLengthEncodedString
                (Raw MYSQL_TYPE_VARCHAR (VString "alice") false)
           ++ [xfb]]).
Proof.
  intros Hc1 Hc2.
  rewrite buildResultset_one_row, Hc1, Hc2. reflexivity.
Qed.

(** C10: with no rows, [buildResultset] succeeds; the resultset has one
    field slot per metadata column, every slot is nil, and there is no
    row buffer. *)
Theorem buildResultset_no_rows (nameTypes : list TableColumn) :
  exists r,
    buildResultset nameTypes [] = Ok r
    /\ length (Fields r) = length nameTypes
    /\ (forall j, (j < length nameTypes)%nat -> Fields r !! j = Some None)
    /\ RowDatas r = [].
Proof.
  exists (mkResultset (replicate (length nameTypes) None) []).
  repeat split; simpl.
  - apply length_replicate.
  - intros j Hj. by apply lookup_replicate_2.
Qed.

End EncoderProperties.

Section WriterProperties.
Import Mysql Schema Proxy.
Context `{Externals}.
Variable io_fails : nat -> bool.

Abbreviation send := (send io_fails).
Abbreviation writePacket := (writePacket io_fails).
Abbreviation flush := (flush io_fails).

Lemma writePacket_send (hdr p : list byte) (c : Conn) :
  length hdr = 4%nat ->
  forall B (k : IO B),
    (writePacket (hdr ++ p) ;;; k) c = (send [p] ;;; k) c.
Proof.
  intros Hh B k. unfold io_bind, Proxy.writePacket. simpl.
  rewrite drop_app_length'; [|done].
  by destruct (io_fails (length (io c))).
Qed.

Lemma send_app B (a b : list (list byte)) (k : IO B) : forall c,
  (send a ;;; (send b ;;; k)) c = (send (a ++ b) ;;; k) c.
Proof.
  induction a as [|p a IH]; intros c.
  - reflexivity.
  - specialize (IH (mkConn (affectedRows c) (io c ++ [EvPacket p]))).
    unfold io_bind in *. simpl.
    by destruct (io_fails (length (io c))).
Qed.

Lemma header_length (data : list byte) :
  (4 <= length data)%nat -> length (take 4 data) = 4%nat.
Proof. intros. rewrite length_take. lia. Qed.

(** The field loop writes the dumped descriptors in order. *)
Lemma writeFields_send B (fs : list Field) : forall data (k : list byte -> IO B),
  (4 <= length data)%nat ->
  exists data',
    (4 <= length data')%nat
    /\ forall c,
        (data <- writeFields io_fails data (Some <$> fs) ;; k data) c
        = (send (Dump <$> fs) ;;; k data') c.
Proof.
  induction fs as [|v fs IH]; intros data k Hd.
  - exists data. split; [done|]. reflexivity.
  - pose proof (header_length data Hd) as Hh.
    destruct (IH (take 4 data ++ Dump v) k) as (data' & Hd' & Heq).
    { rewrite length_app. lia. }
    exists data'. split; [done|]. intros c.
    specialize (Heq (mkConn (affectedRows c) (io c ++ [EvPacket (Dump v)]))).
    rewrite !fmap_cons. cbn [writeFields Proxy.send].
    set (hdr := take 4 data) in *. clearbody hdr.
    unfold io_bind, Proxy.writePacket in *.
    rewrite drop_app_length'; [|done].
    by destruct (io_fails (length (io c))).
Qed.

(** The row loop writes the row buffers in order. *)
Lemma writeRows_send B (rows : list (list byte)) :
  forall data (k : list byte -> IO B),
  (4 <= length data)%nat ->
  exists data',
    (4 <= length data')%nat
    /\ forall c,
        (data <- writeRows io_fails data rows ;; k data) c
        = (send rows ;;; k data') c.
Proof.
  induction rows as [|v rows IH]; intros data k Hd.
  - exists data. split; [done|]. reflexivity.
  - pose proof (header_length data Hd) as Hh.
    destruct (IH (take 4 data ++ v) k) as (data' & Hd' & Heq).
    { rewrite length_app. lia. }
    exists data'. split; [done|]. intros c.
    specialize (Heq (mkConn (affectedRows c) (io c ++ [EvPacket v]))).
    cbn [writeRows Proxy.send].
    set (hdr := take 4 data) in *. clearbody hdr.
    unfold io_bind, Proxy.writePacket in *.
    rewrite drop_app_length'; [|done].
    by destruct (io_fails (length (io c))).
Qed.

Lemma send_cong B (ps : list (list byte)) (k k' : IO B) :
  (forall c, k c = k' c) -> forall c, (send ps ;;; k) c = (send ps ;;; k') c.
Proof.
  intros Hk c. unfold io_bind. destruct (send ps c) as [[[]| |] c']; auto.
Qed.

(** [writeResultset] resets the affected-row count and then sends the
    packets of the resultset, followed by a flush. *)
Lemma writeResultset_as_send (status : Z) (r : Resultset) (fs : list Field) :
  Fields r = Some <$> fs ->
  forall c,
    writeResultset io_fails status r c
    = (send (resultset_packets status fs (RowDatas r)) ;;; flush)
        (mkConn (-1) (io c)).
Proof.
  intros Hf c. unfold writeResultset, resultset_packets.
  change (int64 (-1)) with (-1). rewrite Hf, length_fmap.
  set (c0 := mkConn (-1) (io c)).
  rewrite writePacket_send by done.
  rewrite <- send_app. apply send_cong. clear c c0. intros c.
  destruct (writeFields_send unit fs
              (AllocBytesWithLen4 ++ PutLengthEncodedInt (Z.of_nat (length fs)))
              (fun data =>
                 writeEOF io_fails status ;;;
                 data <- writeRows io_fails data (RowDatas r) ;;
                 writeEOF io_fails status ;;; flush))
    as (data' & Hd' & ->).
  { rewrite length_app. simpl. lia. }
  rewrite <- send_app. apply send_cong. clear c. intros c.
  unfold writeEOF. rewrite writePacket_send by done.
  rewrite <- send_app. apply send_cong. clear c. intros c.
  destruct (writeRows_send unit (RowDatas r) data'
              (fun data => Proxy.writePacket io_fails
                             (AllocBytesWithLen4 ++ eof_payload status) ;;; flush)
              Hd') as (data'' & _ & ->).
  rewrite <- send_app. apply send_cong. clear c. intros c.
  by rewrite writePacket_send.
Qed.

(** When no write is refused, every payload goes out. *)
Lemma send_all (ps : list (list byte)) : forall c,
  (forall k, (k < length ps)%nat -> io_fails (length (io c) + k) = false) ->
  send ps c = (Ok tt, mkConn (affectedRows c) (io c ++ (EvPacket <$> ps))).
Proof.
  induction ps as [|p ps IH]; intros c Hok; simpl.
  - rewrite app_nil_r. by destruct c.
  - pose proof (Hok 0%nat ltac:(simpl; lia)) as H0.
    rewrite Nat.add_0_r in H0. rewrite H0, IH; simpl.
    + by rewrite <- app_assoc.
    + intros k Hk. rewrite length_app. simpl.
      replace (length (io c) + 1 + k)%nat with (length (io c) + S k)%nat by lia.
      apply Hok. simpl. lia.
Qed.



End WriterProperties.

Section EncoderExamples.
Import Mysql Schema Proxy.

Lemma buildResultset_alice_witness :
  @buildResultset sample_externals
    [mkTableColumn "id" MYSQL_TYPE_LONGLONG "binary" false;
     mkTableColumn "name" MYSQL_TYPE_VARCHAR "utf8_general_ci" false;
     mkTableColumn "score" 5 "binary" false]
    [[VInt KInt 7; VString "alice"; VNil]]
  = Ok (mkResultset
          [Some (mkField "id" 63 8 129 false);
           Some (mkField "name" 33 15 0 false);
           Some (mkField "score" 63 5 0 false)]
          [[x01; x37; x05; x61; x6c; x69; x63; x65; xfb]]).
Proof.
  exact (@buildResultset_alice sample_externals
           "binary" "utf8_general_ci" "binary" 5 false eq_refl eq_refl).
Defined.

Lemma buildResultset_row_mismatch_witness :
  @buildResultset sample_externals
    [mkTableColumn "id" MYSQL_TYPE_LONGLONG "binary" false]
    [[VInt KInt 7]; [VInt KInt 8; VNil]]
  = Err (ErrRowMismatch 1 2 1).
Proof.
  refine (proj2 (@buildResultset_row_mismatch sample_externals
                   [mkTableColumn "id" MYSQL_TYPE_LONGLONG "binary" false]
                   [[VInt KInt 7]; [VInt KInt 8; VNil]] _)
            1%nat [VInt KInt 8; VNil] _ eq_refl _).
  - exists 1%nat, [VInt KInt 8; VNil]. split; [reflexivity | simpl; lia].
  - split.
    + exists [VInt KInt 8; VNil]. split; [reflexivity | simpl; lia].
    + intros k' vs' Hlt Hk'. destruct k' as [|k']; [|lia].
      injection Hk' as <-. reflexivity.
  - intros row0 _ Hrow0. injection Hrow0 as <-.
    constructor; [exact I | constructor].
Defined.

(** C7 as stated fails: row 1 has no column where the metadata has one,
    yet the error is the unsupported-type error for the [bool] in row 0
    and names neither the row nor the counts. *)
Lemma buildResultset_mismatch_not_reported :
  has_mismatch 1 [[VOther "bool"]; []]
  /\ @buildResultset sample_externals
       [mkTableColumn "flag" 1 "binary" false]
       [[VOther "bool"]; []]
     = Err (ErrUnsupported "bool")
  /\ @buildResultset sample_externals
       [mkTableColumn "flag" 1 "binary" false]
       [[VOther "bool"]; []]
     <> Err (ErrRowMismatch 1 0 1).
Proof.
  split; [|split].
  - exists 1%nat, []. split; [reflexivity | simpl; lia].
  - reflexivity.
  - discriminate.
Qed.

End EncoderExamples.

Section SchemaProperties.
Import Schema Tabletserver.
Context `{Backend}.

(** C2 (amended): a non-positive size ends the process through the fatal
    log, with the plan cache as it was and nothing returned to the caller;
    a positive size returns and makes the capacity that size. *)
Theorem SetQueryCacheSize_budget (size : Z) (si : SchemaInfo) :
  (size <= 0 -> SetQueryCacheSize size si = (Exits, si))
  /\ (0 < size <= int64_max ->
      exists si',
        SetQueryCacheSize size si = (Returns tt, si')
        /\ lru_capacity (queries si') = size
        /\ tables si' = tables si).
Proof.
  unfold SetQueryCacheSize. split.
  - intros Hle. destruct (Z.leb_spec size 0); [done | lia].
  - intros [Hpos Hmax]. destruct (Z.leb_spec size 0); [lia|].
    eexists. split; [reflexivity|]. split; [|reflexivity].
    simpl. unfold int64, wrapS, int64_max in *.
    rewrite Z.mod_small; lia.
Qed.

Lemma lru_size_Clear (q : LRUCache) : lru_size (Clear q) = 0.
Proof. reflexivity. Qed.

(** C3: when the store describes the table and the registry already has
    an entry of that name, [CreateOrUpdateTable] returns with the entry
    replaced by the freshly read one and the plan cache empty, whatever
    the cache held before. *)
Theorem CreateOrUpdateTable_replace_clears_plans (tableName : string)
    (si : SchemaInfo) (old tableInfo : TableInfo) (row0 : list value)
    (rest : list (list value)) (v2 create_time : value)
    (table_type table_comment : list byte) (cp : CachePool) :
  tables si !! tableName = Some old ->
  PopConn_ok = true ->
  Execute (show_table_query tableName) = Some (row0 :: rest) ->
  row0 !! 1%nat = Some (VBytes table_type) ->
  row0 !! 2%nat = Some v2 ->
  row0 !! 3%nat = Some (VBytes table_comment) ->
  BuildValue v2 = Some create_time ->
  NewTableInfo tableName table_type create_time table_comment (cachePool si)
    = (Some tableInfo, cp) ->
  (Table_CacheType tableInfo = CACHE_NONE \/ is_Some (Table_Cache tableInfo)) ->
  exists si',
    CreateOrUpdateTable tableName si = (Returns tt, si')
    /\ tables si' !! tableName = Some tableInfo
    /\ lru_entries (queries si') = []
    /\ lru_size (queries si') = 0.
Proof.
  intros Hold Hpop Hexec H1 H2 H3 Hbv Hnew Hcache.
  unfold CreateOrUpdateTable.
  rewrite Hpop, Hexec, H2, Hbv, H1, H3, Hnew. simpl.
  rewrite Hold.
  rewrite (bool_decide_eq_true_2 (is_Some (Some old))) by (by eexists).
  exists (set_tables (<[tableName := tableInfo]> (tables si))
            (set_queries (Clear (queries si)) (set_cachePool cp si))).
  split; [|split; [apply lookup_insert_eq | done]].
  destruct Hcache as [Hnone | [rc Hrc]].
  - by rewrite bool_decide_eq_true_2.
  - rewrite Hrc. by case_bool_decide.
Qed.

(** A rule whose table is not in the registry changes nothing. *)
Lemma override_rule_absent (o : SchemaOverride) (si : SchemaInfo) :
  tables si !! Override_Name o = None -> override_rule o si = si.
Proof. intros Hn. unfold override_rule. by rewrite Hn. Qed.

Lemma CreateOrUpdateTable_absent (tableName : string) (si : SchemaInfo) :
  PopConn_ok = true ->
  Execute (show_table_query tableName) = Some [] ->
  CreateOrUpdateTable tableName si = (Returns tt, si).
Proof. intros Hpop Hexec. unfold CreateOrUpdateTable. by rewrite Hpop, Hexec. Qed.

Lemma load_tables_absent (ors : list SchemaOverride) (si : SchemaInfo) :
  PopConn_ok = true ->
  Forall (fun o => Execute (show_table_query (Override_Name o)) = Some []) ors ->
  load_tables ors si = (Returns tt, si).
Proof.
  intros Hpop Hall. induction Hall as [|o ors Ho _ IH]; simpl; [done|].
  by rewrite CreateOrUpdateTable_absent.
Qed.

Lemma override_rules_absent (ors : list SchemaOverride) (si : SchemaInfo) :
  Forall (fun o => tables si !! Override_Name o = None) ors ->
  fold_left (fun si o => override_rule o si) ors si = si.
Proof.
  intros Hall. induction Hall as [|o ors Ho _ IH]; simpl; [done|].
  by rewrite override_rule_absent.
Qed.

(** C8: for a rule that names a table the registry does not hold and the
    store does not know, loading the table and applying the rule both
    leave [SchemaInfo] as it was (registry, plan cache and cache pool, so
    no row cache is made), and the load returns normally. When every rule
    is of that kind, so does the whole load-and-override pass. *)
Theorem override_nonexistent_table (o : SchemaOverride) (si : SchemaInfo) :
  PopConn_ok = true ->
  tables si !! Override_Name o = None ->
  Execute (show_table_query (Override_Name o)) = Some [] ->
  CreateOrUpdateTable (Override_Name o) si = (Returns tt, si)
  /\ override_rule o si = si
  /\ (Forall (fun o' =>
                tables si !! Override_Name o' = None
                /\ Execute (show_table_query (Override_Name o')) = Some [])
             (overrides si) ->
      load_and_override si = (Returns tt, si)).
Proof.
  intros Hpop Hn Hexec. split; [|split].
  - by apply CreateOrUpdateTable_absent.
  - by apply override_rule_absent.
  - intros Hall. unfold load_and_override, override.
    rewrite load_tables_absent; [|done|].
    + rewrite override_rules_absent; [done|].
      eapply Forall_impl; [exact Hall|]. by intros ? [? ?].
    + eapply Forall_impl; [exact Hall|]. by intros ? [? ?].
Qed.

(** A write-only rule on a registered table sets the table's cache type
    before it looks for the target; when the target is missing or has no
    cache, the rule stops there and the table keeps its old cache. *)
Lemma override_rule_write_only_no_target (o : SchemaOverride)
    (desc : OverrideCacheDesc) (si : SchemaInfo) (table : TableInfo) :
  tables si !! Override_Name o = Some table ->
  Override_PKColumns o = None ->
  IsClosed (cachePool si) = false ->
  Override_Cache o = Some desc ->
  Desc_Type desc = "W" ->
  (tables si !! Desc_Table desc = None
   \/ exists totable, tables si !! Desc_Table desc = Some totable
                      /\ Table_Cache totable = None) ->
  tables (override_rule o si) !! Override_Name o
  = Some (set_CacheType CACHE_W table).
Proof.
  intros Htab Hpk Hopen Hdesc Hty Htarget.
  unfold override_rule. rewrite Htab, Hpk. simpl.
  rewrite Hopen, Hdesc, Hty. simpl.
  assert (Hsrc : alter (set_CacheType CACHE_W) (Override_Name o) (tables si)
                   !! Override_Name o = Some (set_CacheType CACHE_W table))
    by (by rewrite lookup_alter_eq, Htab).
  destruct (String.length (Desc_Table desc) =? 0)%nat; [done|].
  destruct (decide (Override_Name o = Desc_Table desc)) as [Hself | Hother].
  - rewrite <- Hself in *. rewrite Hsrc. simpl.
    destruct Htarget as [Hnone | (totable & Hto & Hc)]; [congruence|].
    replace (Table_Cache table) with (@None RowCache) by congruence.
    exact Hsrc.
  - rewrite lookup_alter_ne by done.
    destruct Htarget as [-> | (totable & -> & ->)]; exact Hsrc.
Qed.

End SchemaProperties.

Section SchemaExamples.
Import Schema Tabletserver.

(** C1 on the code: [users] is registered without a cache, and the only
    rule makes it write-only on the cache of [orders], which is not in
    the registry. After [override] the table is typed [CACHE_W] although
    no cache has been attached to it. *)
Theorem override_write_only_missing_target :
  tables (sample_schema [write_only_rule "orders"]) !! "orders" = None
  /\ Table_CacheType
       <$> tables (sample_schema [write_only_rule "orders"]) !! "users"
     = Some CACHE_NONE
  /\ Table_CacheType
       <$> tables (@override sample_backend
                     (sample_schema [write_only_rule "orders"])) !! "users"
     = Some CACHE_W
  /\ Table_Cache
       <$> tables (@override sample_backend
                     (sample_schema [write_only_rule "orders"])) !! "users"
     = Some None.
Proof.
  assert (Hrule :
    tables (@override sample_backend (sample_schema [write_only_rule "orders"]))
      !! "users"
    = Some (set_CacheType CACHE_W (mkTableInfo "users" [] CACHE_NONE None))).
  { apply (@override_rule_write_only_no_target sample_backend
             (write_only_rule "orders") (mkOverrideCacheDesc "W" "" "orders")
             (sample_schema [write_only_rule "orders"]));
      try reflexivity.
    left. reflexivity. }
  repeat split; try reflexivity; by rewrite Hrule.
Qed.

(** C2 as stated fails: with size 0 or -1 the call does not come back to
    its caller with an error, the process exits. *)
Lemma SetQueryCacheSize_nonpositive_exits :
  SetQueryCacheSize 0 (sample_schema []) = (Exits, sample_schema [])
  /\ SetQueryCacheSize (-1) (sample_schema []) = (Exits, sample_schema [])
  /\ ~ (exists si', SetQueryCacheSize 0 (sample_schema []) = (Returns tt, si')).
Proof.
  split; [reflexivity | split; [reflexivity|]].
  intros [si' Hret]. discriminate Hret.
Qed.

Lemma SetQueryCacheSize_budget_witness :
  SetQueryCacheSize 0 (sample_schema []) = (Exits, sample_schema [])
  /\ exists si',
      SetQueryCacheSize 64 (sample_schema []) = (Returns tt, si')
      /\ lru_capacity (queries si') = 64
      /\ tables si' = tables (sample_schema []).
Proof.
  split.
  - apply (proj1 (SetQueryCacheSize_budget 0 (sample_schema []))). lia.
  - apply (proj2 (SetQueryCacheSize_budget 64 (sample_schema []))).
    unfold int64_max. lia.
Defined.

Lemma CreateOrUpdateTable_replace_clears_plans_witness :
  lru_size (queries (sample_schema [])) = 2
  /\ exists si',
      @CreateOrUpdateTable sample_backend "users" (sample_schema [])
      = (Returns tt, si')
      /\ tables si' !! "users" = Some (mkTableInfo "users" [] CACHE_NONE None)
      /\ lru_entries (queries si') = []
      /\ lru_size (queries si') = 0.
Proof.
  split; [reflexivity|].
  eapply (@CreateOrUpdateTable_replace_clears_plans sample_backend "users"
            (sample_schema []));
    try reflexivity.
  left. reflexivity.
Defined.

Lemma override_nonexistent_table_witness :
  @CreateOrUpdateTable sample_backend "ghost"
    (sample_schema [mkSchemaOverride "ghost" (Some ["id"])
                      (Some (mkOverrideCacheDesc "RW" "" ""))])
  = (Returns tt,
     sample_schema [mkSchemaOverride "ghost" (Some ["id"])
                      (Some (mkOverrideCacheDesc "RW" "" ""))])
  /\ @load_and_override sample_backend
       (sample_schema [mkSchemaOverride "ghost" (Some ["id"])
                         (Some (mkOverrideCacheDesc "RW" "" ""))])
     = (Returns tt,
        sample_schema [mkSchemaOverride "ghost" (Some ["id"])
                         (Some (mkOverrideCacheDesc "RW" "" ""))]).
Proof.
  destruct (@override_nonexistent_table sample_backend
              (mkSchemaOverride "ghost" (Some ["id"])
                 (Some (mkOverrideCacheDesc "RW" "" "")))
              (sample_schema [mkSchemaOverride "ghost" (Some ["id"])
                                (Some (mkOverrideCacheDesc "RW" "" ""))])
              eq_refl eq_refl eq_refl) as (Hload & _ & Hall).
  split; [exact Hload|].
  apply Hall. repeat constructor.
Defined.

End SchemaExamples.

Section StatsProperties.
Import Tabletserver.

Lemma int64_add_l (a b : Z) : int64 (int64 a + b) = int64 (a + b).
Proof.
  unfold int64, wrapS.
  replace ((a + 2 ^ (64 - 1)) mod 2 ^ 64 - 2 ^ (64 - 1) + b + 2 ^ (64 - 1))
    with ((a + 2 ^ (64 - 1)) mod 2 ^ 64 + b) by lia.
  rewrite Zplus_mod_idemp_l. f_equal. f_equal. lia.
Qed.

Lemma int64_idem (a : Z) : int64 (int64 a) = int64 a.
Proof.
  replace (int64 a) with (int64 a + 0) at 1 by lia.
  rewrite int64_add_l. f_equal. lia.
Qed.

Lemma int64_in_range (a : Z) : in_int64 a -> int64 a = a.
Proof.
  unfold in_int64, int64_min, int64_max, int64, wrapS. intros Ha.
  rewrite Z.mod_small; lia.
Qed.

(** *** Sequential application *)

Lemma AddStats_all_get (k : counter) (calls : list call) : forall ep,
  int64 (get k ep) = get k ep ->
  get k (AddStats_all calls ep) = int64 (get k ep + sum_arg k calls).
Proof.
  induction calls as [|c calls IH]; intros ep Hep; simpl.
  - by rewrite Z.add_0_r.
  - unfold AddStats_all in *. simpl. rewrite IH.
    + destruct k; simpl; rewrite int64_add_l; f_equal; lia.
    + destruct k; simpl; apply int64_idem.
Qed.

Lemma sum_arg_Permutation (k : counter) (calls calls' : list call) :
  Permutation calls calls' -> sum_arg k calls = sum_arg k calls'.
Proof.
  induction 1 as [|c l l' _ IH|c c' l|l l' l'' _ IH1 _ IH2]; simpl; lia.
Qed.

Lemma AddStats_all_stats (name : string) (calls : list call) :
  Stats (AddStats_all calls (zero_plan name)) = expected_stats calls.
Proof.
  unfold Stats, expected_stats.
  assert (Hget : forall k,
             get k (AddStats_all calls (zero_plan name))
             = int64 (sum_arg k calls)).
  { intros k. rewrite AddStats_all_get; by destruct k. }
  pose proof (Hget CQuery) as Hq. pose proof (Hget CTime) as Hd.
  pose proof (Hget CRow) as Hr. pose proof (Hget CError) as He.
  simpl in Hq, Hd, Hr, He. by rewrite Hq, Hd, Hr, He.
Qed.

(** *** Sums over the goroutines *)

Lemma total_insert f (gs : list (call * pc)) : forall i g g',
  gs !! i = Some g ->
  total f (<[i := g']> gs) = total f gs - f g + f g'.
Proof.
  induction gs as [|h gs IH]; intros [|i] g g' Hi; simpl in *; try done.
  - injection Hi as ->. lia.
  - rewrite (IH i g g' Hi). lia.
Qed.

Lemma total_nonneg f (gs : list (call * pc)) :
  (forall g, 0 <= f g) -> 0 <= total f gs.
Proof.
  intros Hf. induction gs as [|h gs IH]; simpl; [lia|].
  specialize (Hf h). lia.
Qed.

Lemma total_one f (gs : list (call * pc)) : forall i g,
  (forall g, 0 <= f g) -> gs !! i = Some g -> f g <= total f gs.
Proof.
  induction gs as [|h gs IH]; intros [|i] g Hf Hi; simpl in *; try done.
  - injection Hi as ->. pose proof (total_nonneg f gs Hf). lia.
  - specialize (IH i g Hf Hi). specialize (Hf h). lia.
Qed.

Lemma total_two f (gs : list (call * pc)) : forall i j g g',
  (forall g, 0 <= f g) -> i <> j ->
  gs !! i = Some g -> gs !! j = Some g' ->
  f g + f g' <= total f gs.
Proof.
  induction gs as [|h gs IH]; intros [|i] [|j] g g' Hf Hne Hi Hj;
    simpl in *; try done.
  - injection Hi as ->. pose proof (total_one f gs j g' Hf Hj). lia.
  - injection Hj as ->. pose proof (total_one f gs i g Hf Hi). lia.
  - assert (i <> j) by congruence.
    specialize (IH i j g g' Hf ltac:(done) Hi Hj). specialize (Hf h). lia.
Qed.

Lemma in_critical_nonneg g : 0 <= in_critical g.
Proof. destruct g as [c []]; unfold in_critical; simpl; lia. Qed.

Lemma in_critical_le_one g : in_critical g <= 1.
Proof. destruct g as [c []]; unfold in_critical; simpl; lia. Qed.

(** Two goroutines are never inside together. *)
Lemma consistent_exclusive (s : system) (i j : nat) g g' :
  consistent s -> i <> j ->
  sys_goroutines s !! i = Some g -> sys_goroutines s !! j = Some g' ->
  in_critical g = 1 -> in_critical g' = 0.
Proof.
  intros Hs Hne Hi Hj Hg.
  pose proof (total_two in_critical _ i j g g' in_critical_nonneg Hne Hi Hj).
  pose proof (mutex_ok s Hs) as Hm.
  pose proof (in_critical_nonneg g').
  destruct (mu_locked (sys_shared s)); lia.
Qed.

Lemma get_set_same k n ep : get k (set k n ep) = n.
Proof. by destruct k. Qed.

Lemma get_set_other k k' n ep : k <> k' -> get k' (set k n ep) = get k' ep.
Proof. by destruct k, k'. Qed.

(** The write of counter [k] adds the argument to [k] and to no other. *)
Lemma contrib_store_same k c tmp :
  contrib k (c, after_store k) - contrib k (c, AtStore k tmp) = arg k c.
Proof. destruct k; unfold contrib; simpl; lia. Qed.

Lemma contrib_store_other k k' c tmp :
  k <> k' -> contrib k' (c, after_store k) = contrib k' (c, AtStore k tmp).
Proof. by destruct k, k'. Qed.

(** *** The invariant *)

Lemma start_consistent (name : string) (calls : list call) :
  consistent (start (zero_plan name) calls).
Proof.
  assert (Hzero : forall f,
             (forall c, f (c, AtLock) = 0) ->
             total f (map (fun c => (c, AtLock)) calls) = 0).
  { intros f Hf. induction calls as [|c calls IH]; simpl; [done|].
    rewrite Hf, IH. lia. }
  split; simpl.
  - intros k. rewrite Hzero by done. by destruct k.
  - by rewrite Hzero.
  - intros i c k tmp Hi. rewrite list_lookup_fmap in Hi.
    destruct (calls !! i); simpl in Hi; congruence.
Qed.

(** A goroutine that moved is not waiting at a store, unless it just
    read the counter. *)
Lemma loads_ok_insert (gs : list (call * pc)) (i : nat) (c : call) (p' : pc)
    (ep : ExecPlan) :
  (i < length gs)%nat ->
  (forall k tmp, p' = AtStore k tmp -> tmp = get k ep) ->
  (forall j c' k tmp, j <> i -> gs !! j = Some (c', AtStore k tmp) ->
                      tmp = get k ep) ->
  forall j c' k tmp,
    <[i := (c, p')]> gs !! j = Some (c', AtStore k tmp) -> tmp = get k ep.
Proof.
  intros Hlt Hnew Hold j c' k tmp Hj.
  destruct (decide (j = i)) as [->|Hne].
  - rewrite list_lookup_insert_eq in Hj by done.
    injection Hj as _ Hp. by apply Hnew.
  - rewrite list_lookup_insert_ne in Hj by done. by eapply Hold.
Qed.

(** Every step keeps the invariant. *)
Lemma sched_step_consistent (i : nat) (s s' : system) :
  consistent s -> sched_step i s = Some s' -> consistent s'.
Proof.
  intros Hs Hstep. unfold sched_step in Hstep.
  destruct (sys_goroutines s !! i) as [[c p]|] eqn:Hi; [|done].
  destruct (goroutine_step c p (sys_shared s)) as [[p' sh']|] eqn:Hg; [|done].
  injection Hstep as <-.
  pose proof (lookup_lt_Some _ _ _ Hi) as Hlt.
  pose proof (counters_ok s Hs) as Hc.
  pose proof (mutex_ok s Hs) as Hm.
  pose proof (loads_ok s Hs) as Hl.
  pose proof (fun j g' Hne Hj =>
                consistent_exclusive s i j (c, p) g' Hs Hne Hi Hj) as Hex.
  destruct s as [[ep mu] gs]; simpl in *.
  destruct p as [|k|k tmp| |]; simpl in Hg.
  - (* Lock *)
    destruct mu; [done|]. injection Hg as <- <-.
    split; simpl.
    + intros k. rewrite (total_insert _ _ _ _ _ Hi), Hc.
      f_equal. unfold contrib. simpl. destruct k; simpl; lia.
    + rewrite (total_insert _ _ _ _ _ Hi), Hm. unfold in_critical. simpl. lia.
    + apply loads_ok_insert; [done | done |].
      intros j c' k tmp _ Hj. by eapply Hl.
  - (* read of counter k *)
    injection Hg as <- <-.
    split; simpl.
    + intros k0. rewrite (total_insert _ _ _ _ _ Hi), Hc.
      f_equal. unfold contrib. simpl. lia.
    + rewrite (total_insert _ _ _ _ _ Hi), Hm. unfold in_critical. simpl. lia.
    + apply loads_ok_insert; [done | |].
      * intros k0 tmp Hp. by injection Hp as <- <-.
      * intros j c' k0 tmp _ Hj. by eapply Hl.
  - (* write of counter k *)
    injection Hg as <- <-.
    assert (Htmp : tmp = get k ep) by (by eapply Hl).
    split; simpl.
    + intros k0. rewrite (total_insert _ _ _ _ _ Hi).
      destruct (decide (k = k0)) as [<-|Hk].
      * rewrite get_set_same.
        pose proof (contrib_store_same k c tmp) as Hadd.
        transitivity (int64 (int64 (total (contrib k) gs) + arg k c));
          [by rewrite Htmp, Hc|].
        rewrite int64_add_l. f_equal. lia.
      * rewrite get_set_other by done. rewrite Hc.
        rewrite (contrib_store_other k k0 c tmp Hk). f_equal. lia.
    + rewrite (total_insert _ _ _ _ _ Hi), Hm. unfold in_critical. simpl.
      destruct k; simpl; lia.
    + apply loads_ok_insert; [done | |].
      * intros k0 tmp0 Hp. destruct k; discriminate.
      * intros j c' k0 tmp0 Hne Hj.
        specialize (Hex j (c', AtStore k0 tmp0) ltac:(congruence) Hj eq_refl).
        discriminate.
  - (* Unlock *)
    injection Hg as <- <-.
    pose proof (total_one in_critical gs i _ in_critical_nonneg Hi) as Hone.
    split; simpl.
    + intros k. rewrite (total_insert _ _ _ _ _ Hi), Hc.
      f_equal. unfold contrib. simpl. lia.
    + rewrite (total_insert _ _ _ _ _ Hi), Hm.
      unfold in_critical in *. simpl in *. destruct mu; lia.
    + apply loads_ok_insert; [done | done |].
      intros j c' k tmp _ Hj. by eapply Hl.
  - done.
Qed.

Lemma run_consistent (schedule : list nat) : forall s s',
  consistent s -> run schedule s = Some s' -> consistent s'.
Proof.
  induction schedule as [|i schedule IH]; intros s s' Hs Hrun; simpl in Hrun.
  - by injection Hrun as <-.
  - destruct (sched_step i s) as [s1|] eqn:Hstep; [|done].
    eapply IH; [|exact Hrun]. by eapply sched_step_consistent.
Qed.

(** No step changes the calls the goroutines are making. *)
Lemma sched_step_calls (i : nat) (s s' : system) :
  sched_step i s = Some s' ->
  fst <$> sys_goroutines s' = fst <$> sys_goroutines s.
Proof.
  unfold sched_step. intros Hstep.
  destruct (sys_goroutines s !! i) as [[c p]|] eqn:Hi; [|done].
  destruct (goroutine_step c p (sys_shared s)) as [[p' sh']|]; [|done].
  injection Hstep as <-. simpl.
  rewrite list_fmap_insert. apply list_insert_id.
  by rewrite list_lookup_fmap, Hi.
Qed.

Lemma run_calls (schedule : list nat) : forall s s',
  run schedule s = Some s' ->
  fst <$> sys_goroutines s' = fst <$> sys_goroutines s.
Proof.
  induction schedule as [|i schedule IH]; intros s s' Hrun; simpl in Hrun.
  - by injection Hrun as <-.
  - destruct (sched_step i s) as [s1|] eqn:Hstep; [|done].
    rewrite (IH _ _ Hrun). by eapply sched_step_calls.
Qed.

Lemma start_calls (ep : ExecPlan) (calls : list call) :
  fst <$> sys_goroutines (start ep calls) = calls.
Proof.
  simpl. induction calls as [|c calls IH]; [done|].
  simpl. f_equal. exact IH.
Qed.

(** Once every goroutine is through, each has added all its arguments. *)
Lemma total_contrib_finished (k : counter) (gs : list (call * pc)) :
  Forall (fun g => snd g = Finished) gs ->
  total (contrib k) gs = sum_arg k (fst <$> gs).
Proof.
  induction 1 as [|[c p] gs Hp _ IH]; simpl; [done|].
  simpl in Hp. subst p. rewrite IH. unfold contrib. simpl. done.
Qed.

(** Whatever the interleaving, when all calls have finished the plan
    holds the sums. *)
Lemma run_finished_stats (name : string) (calls : list call)
    (schedule : list nat) (s' : system) :
  run schedule (start (zero_plan name) calls) = Some s' ->
  all_finished s' ->
  Stats (plan (sys_shared s')) = expected_stats calls.
Proof.
  intros Hrun Hfin.
  pose proof (run_consistent schedule _ _ (start_consistent name calls) Hrun)
    as Hs.
  pose proof (run_calls schedule _ _ Hrun) as Hcalls.
  rewrite start_calls in Hcalls.
  assert (Hget : forall k,
             get k (plan (sys_shared s')) = int64 (sum_arg k calls)).
  { intros k. rewrite (counters_ok s' Hs), (total_contrib_finished k _ Hfin).
    by rewrite Hcalls. }
  pose proof (Hget CQuery) as Hq. pose proof (Hget CTime) as Hd.
  pose proof (Hget CRow) as Hr. pose proof (Hget CError) as He.
  simpl in Hq, Hd, Hr, He. unfold Stats, expected_stats.
  by rewrite Hq, Hd, Hr, He.
Qed.

(** *** The calls can always finish *)

Lemma steps_left_insert (gs : list (call * pc)) : forall i g g',
  gs !! i = Some g ->
  (steps_left (<[i := g']> gs) + remaining g
   = steps_left gs + remaining g')%nat.
Proof.
  induction gs as [|h gs IH]; intros [|i] g g' Hi; simpl in *; try done.
  - injection Hi as ->. lia.
  - specialize (IH i g g' Hi). lia.
Qed.

Lemma goroutine_step_remaining c p sh p' sh' :
  goroutine_step c p sh = Some (p', sh') ->
  remaining (c, p) = S (remaining (c, p')).
Proof.
  destruct p as [|k|k tmp| |]; simpl; intros Hg.
  - destruct (mu_locked sh); [done|]. by injection Hg as <- <-.
  - injection Hg as <- <-. by destruct k.
  - injection Hg as <- <-. by destruct k.
  - by injection Hg as <- <-.
  - done.
Qed.

Lemma sched_step_steps_left (i : nat) (s s' : system) :
  sched_step i s = Some s' ->
  steps_left (sys_goroutines s) = S (steps_left (sys_goroutines s')).
Proof.
  unfold sched_step. intros Hstep.
  destruct (sys_goroutines s !! i) as [[c p]|] eqn:Hi; [|done].
  destruct (goroutine_step c p (sys_shared s)) as [[p' sh']|] eqn:Hg; [|done].
  injection Hstep as <-. simpl.
  pose proof (steps_left_insert _ i _ (c, p') Hi) as Hins.
  rewrite (goroutine_step_remaining _ _ _ _ _ Hg) in Hins. lia.
Qed.

Lemma steps_left_zero (gs : list (call * pc)) :
  steps_left gs = 0%nat -> Forall (fun g => snd g = Finished) gs.
Proof.
  induction gs as [|[c p] gs IH]; simpl; intros Hz; constructor.
  - simpl. unfold remaining in Hz. simpl in Hz.
    destruct p as [|k|k tmp| |]; try destruct k; simpl in Hz; try lia; done.
  - apply IH. lia.
Qed.

Lemma steps_left_pos (gs : list (call * pc)) :
  (0 < steps_left gs)%nat ->
  exists i c p, gs !! i = Some (c, p) /\ p <> Finished.
Proof.
  induction gs as [|[c p] gs IH]; simpl; intros Hpos; [lia|].
  destruct p as [|k|k tmp| |];
    try (exists 0%nat; eexists; eexists; split; [reflexivity | discriminate]).
  destruct IH as (i & c' & p' & Hi & Hp); [unfold remaining in Hpos; simpl in Hpos; lia|].
  exists (S i), c', p'. done.
Qed.

Lemma total_pos (f : call * pc -> Z) (gs : list (call * pc)) :
  0 < total f gs -> exists i g, gs !! i = Some g /\ 0 < f g.
Proof.
  induction gs as [|h gs IH]; simpl; intros Hpos; [lia|].
  destruct (decide (0 < f h)) as [Hh|Hh].
  - exists 0%nat, h. done.
  - destruct IH as (i & g & Hi & Hg); [lia|]. exists (S i), g. done.
Qed.

(** A goroutine inside the critical section can always move. *)
Lemma inside_can_step (i : nat) (s : system) c p :
  sys_goroutines s !! i = Some (c, p) ->
  0 < in_critical (c, p) ->
  exists s', sched_step i s = Some s'.
Proof.
  intros Hi Hin. unfold sched_step. rewrite Hi.
  destruct p as [|k|k tmp| |]; unfold in_critical in Hin; simpl in *;
    try lia; eauto.
Qed.

(** In a consistent system that is not finished some goroutine can move:
    the one holding the mutex, or any waiting one when the mutex is free. *)
Lemma consistent_progress (s : system) :
  consistent s ->
  (0 < steps_left (sys_goroutines s))%nat ->
  exists i s', sched_step i s = Some s'.
Proof.
  intros Hs Hpos. pose proof (mutex_ok s Hs) as Hm.
  destruct (mu_locked (sys_shared s)) eqn:Hmu.
  - destruct (total_pos in_critical (sys_goroutines s)) as (i & [c p] & Hi & Hin);
      [lia|].
    exists i. by eapply inside_can_step.
  - destruct (steps_left_pos _ Hpos) as (i & c & p & Hi & Hp).
    exists i.
    pose proof (total_one in_critical _ i _ in_critical_nonneg Hi) as Hle.
    pose proof (in_critical_nonneg (c, p)) as Hge.
    unfold sched_step. rewrite Hi.
    destruct p as [|k|k tmp| |]; unfold in_critical in *; simpl in *;
      try lia; try done.
    rewrite Hmu. eauto.
Qed.

Lemma complete_schedule (n : nat) : forall s,
  consistent s ->
  steps_left (sys_goroutines s) = n ->
  exists schedule s', run schedule s = Some s' /\ all_finished s'.
Proof.
  induction n as [|n IH]; intros s Hs Hn.
  - exists [], s. split; [done|]. by apply steps_left_zero.
  - destruct (consistent_progress s Hs) as (i & s1 & Hstep); [lia|].
    destruct (IH s1) as (schedule & s' & Hrun & Hfin).
    + by eapply sched_step_consistent.
    + pose proof (sched_step_steps_left _ _ _ Hstep). lia.
    + exists (i :: schedule), s'. split; [|done]. simpl. by rewrite Hstep.
Qed.

(** C9: applied to a plan with zero counters, the calls give the same
    statistics in every order, namely the sums of their arguments taken
    componentwise (as [int64] values, hence the exact sums whenever these
    fit); and so does every interleaving of concurrent callers that runs
    all of them to the end, which the callers can always do. *)
Theorem AddStats_sums_any_order (name : string) (calls : list call) :
  (forall calls', Permutation calls calls' ->
     Stats (AddStats_all calls' (zero_plan name)) = expected_stats calls)
  /\ (forall schedule s',
        run schedule (start (zero_plan name) calls) = Some s' ->
        all_finished s' ->
        Stats (plan (sys_shared s')) = expected_stats calls)
  /\ (exists schedule s',
        run schedule (start (zero_plan name) calls) = Some s'
        /\ all_finished s')
  /\ ((forall k, in_int64 (sum_arg k calls)) ->
      expected_stats calls
      = (sum_arg CQuery calls, sum_arg CTime calls,
         sum_arg CRow calls, sum_arg CError calls)).
Proof.
  split; [|split; [|split]].
  - intros calls' Hperm. rewrite AddStats_all_stats.
    unfold expected_stats.
    by rewrite !(sum_arg_Permutation _ calls calls' Hperm).
  - intros schedule s'. apply run_finished_stats.
  - eapply complete_schedule; [apply start_consistent | reflexivity].
  - intros Hfit. unfold expected_stats.
    by rewrite !int64_in_range by apply Hfit.
Qed.

End StatsProperties.

Section MoreExamples.
Import Mysql Schema Proxy Tabletserver.


Lemma AddStats_sums_any_order_witness :
  Stats (AddStats_all [mkCall 1 20 3 1; mkCall 1 10 2 0] (zero_plan "q"))
  = (2, 30, 5, 1)
  /\ exists s',
      run (replicate 10 1%nat ++ replicate 10 0%nat)
        (start (zero_plan "q") [mkCall 1 10 2 0; mkCall 1 20 3 1])
      = Some s'
      /\ Stats (plan (sys_shared s')) = (2, 30, 5, 1).
Proof.
  split.
  - refine (eq_trans
              (proj1 (AddStats_sums_any_order "q"
                        [mkCall 1 10 2 0; mkCall 1 20 3 1])
                 [mkCall 1 20 3 1; mkCall 1 10 2 0] _) _).
    + apply perm_swap.
    + vm_compute. reflexivity.
  - eexists. split; [vm_compute; reflexivity|].
    refine (eq_trans
              (proj1 (proj2 (AddStats_sums_any_order "q"
                               [mkCall 1 10 2 0; mkCall 1 20 3 1]))
                 (replicate 10 1%nat ++ replicate 10 0%nat) _ _ _) _).
    + vm_compute. reflexivity.
    + repeat constructor.
    + vm_compute. reflexivity.
Defined.

End MoreExamples.

(** * Further properties of the result-set encoder *)

Section EncoderFunctional.
Import Mysql Schema Proxy.
Context `{Externals}.

(** A later row is encoded value by value under the zero field. *)
Lemma buildRow_later_spec nameTypes i vs : forall j fields row,
  i <> 0%nat ->
  buildRow nameTypes i j vs fields row
  = Ok (fields, row ++ encode_later_row vs).
Proof.
  induction vs as [|v vs IH]; intros j fields row Hi; simpl.
  - unfold encode_later_row. simpl. by rewrite app_nil_r.
  - destruct (Nat.eqb_spec i 0) as [->|_]; [done|].
    rewrite IH by done. unfold encode_later_row, encode_value. simpl.
    destruct (is_nil v); by rewrite <- app_assoc.
Qed.

(** The first row fills the slots from column [j] on and encodes every
    value under its column's type. *)
Lemma buildRow_first_spec nameTypes vs : forall j fields row,
  length fields = length nameTypes ->
  (j + length vs)%nat = length nameTypes ->
  Forall supported vs ->
  buildRow nameTypes 0 j vs fields row
  = Ok (take j fields
          ++ (Some <$> zip_with first_row_field (drop j nameTypes) vs),
        row ++ encode_first_row (drop j nameTypes) vs).
Proof.
  induction vs as [|v vs IH]; intros j fields row Hlen Hj Hs; simpl.
  - simpl in Hj. rewrite take_ge by lia.
    unfold encode_first_row.
    destruct (drop j nameTypes); simpl; by rewrite !app_nil_r.
  - simpl in Hj. inversion Hs as [|? ? Hv Hvs]; subst.
    destruct (Nat.ltb_spec j (length fields)) as [_|?]; [simpl|lia].
    destruct (lookup_lt_is_Some_2 nameTypes j) as [nt Hnt]; [lia|].
    rewrite Hnt, (drop_S _ _ _ Hnt).
    destruct (formatField_supported (set_Name (Column_Name nt) zero_Field) v Hv)
      as [field' Hf].
    assert (Hfield : first_row_field nt v
                     = set_IsUnsigned (Column_IsUnsigned nt)
                         (set_Charset
                            (uint16 (CollationNames (Column_Collation nt)))
                            (set_Type (Column_SqlType nt) field')))
      by (unfold first_row_field; by rewrite Hf).
    rewrite Hf, <- Hfield.
    change (Field_Type (first_row_field nt v)) with (Column_SqlType nt).
    change (Field_IsUnsigned (first_row_field nt v))
      with (Column_IsUnsigned nt).
    rewrite IH; [|by rewrite length_insert|lia|done].
    rewrite (take_S_r _ _ (Some (first_row_field nt v)))
      by (apply list_lookup_insert_eq; lia).
    rewrite take_insert_ge by lia.
    f_equal. f_equal.
    + cbn [zip_with]. rewrite fmap_cons. by rewrite <- app_assoc.
    + unfold encode_first_row. cbn [zip_with concat]. unfold encode_value at 2.
      destruct (is_nil v); by rewrite <- !app_assoc.
Qed.

Lemma buildRows_later_spec nameTypes values : forall i r,
  i <> 0%nat ->
  Forall (fun vs => length vs = length (Fields r)) values ->
  buildRows nameTypes i values r
  = Ok (mkResultset (Fields r) (RowDatas r ++ (encode_later_row <$> values))).
Proof.
  induction values as [|vs values IH]; intros i r Hi Hall; simpl.
  - rewrite app_nil_r. by destruct r.
  - inversion Hall as [|? ? Hvs Hrest]; subst.
    rewrite Hvs, Nat.eqb_refl. simpl.
    rewrite buildRow_later_spec by done.
    rewrite IH; [|lia|done]. simpl. by rewrite <- app_assoc.
Qed.

(** Rows of the right width whose first row holds supported values are
    always encoded: the descriptors come from the first row and the
    metadata, the first buffer is rendered under the columns' types and
    signedness, and every later buffer under wire type 0, signed. *)
Lemma buildResultset_resultset_of (nameTypes : list TableColumn)
    (values : list (list value)) :
  well_formed_rows (length nameTypes) values ->
  buildResultset nameTypes values = Ok (resultset_of nameTypes values).
Proof.
  intros [Hall Hfirst]. unfold buildResultset.
  destruct values as [|row0 rest]; [done|].
  inversion Hall as [|? ? Hrow0 Hrest]; subst.
  simpl. rewrite length_replicate, Hrow0, Nat.eqb_refl. simpl.
  rewrite buildRow_first_spec;
    [|apply length_replicate|done|by apply Hfirst].
  rewrite buildRows_later_spec; [|lia|].
  - simpl. by rewrite drop_0.
  - simpl. rewrite length_fmap, length_zip_with, drop_0.
    eapply Forall_impl; [exact Hrest|]. simpl. intros vs ->. lia.
Qed.

Lemma formatField_no_error field v field' :
  formatField field v = (field', None) -> supported v.
Proof. destruct v; simpl; intros Hf; try exact I. discriminate. Qed.

Lemma buildRow_ok_supported nameTypes vs : forall j fields row out,
  buildRow nameTypes 0 j vs fields row = Ok out -> Forall supported vs.
Proof.
  induction vs as [|v vs IH]; intros j fields row out Hok; [constructor|].
  simpl in Hok.
  destruct (negb (j <? length fields)%nat); [done|].
  destruct (nameTypes !! j) as [nt|]; [|done].
  destruct (formatField (set_Name (Column_Name nt) zero_Field) v)
    as [field' [e|]] eqn:Hf; [done|].
  constructor; [by eapply formatField_no_error|]. by eapply IH.
Qed.

Lemma buildRow_ok_length nameTypes i vs : forall j fields row fields' row',
  buildRow nameTypes i j vs fields row = Ok (fields', row') ->
  length fields' = length fields.
Proof.
  induction vs as [|v vs IH]; intros j fields row fields' row' Hok;
    simpl in Hok.
  - by injection Hok as <- _.
  - destruct (i =? 0)%nat.
    + destruct (negb (j <? length fields)%nat); [done|].
      destruct (nameTypes !! j) as [nt|]; [|done].
      destruct (formatField (set_Name (Column_Name nt) zero_Field) v)
        as [field' [e|]]; [done|].
      apply IH in Hok. by rewrite length_insert in Hok.
    + by apply IH in Hok.
Qed.

Lemma buildRows_ok_widths nameTypes values : forall i r r',
  buildRows nameTypes i values r = Ok r' ->
  Forall (fun vs => length vs = length (Fields r)) values.
Proof.
  induction values as [|vs values IH]; intros i r r' Hok; [constructor|].
  simpl in Hok.
  destruct (Nat.eqb_spec (length vs) (length (Fields r))) as [Hvs|];
    simpl in Hok; [|done].
  destruct (buildRow nameTypes i 0 vs (Fields r) []) as [[fields row]| |]
    eqn:Hrow; [|done|done].
  constructor; [done|].
  apply IH in Hok. simpl in Hok.
  by rewrite (buildRow_ok_length _ _ _ _ _ _ _ _ Hrow) in Hok.
Qed.

(** [buildResultset] succeeds exactly on rows of the right width whose
    first row holds values of supported types; what later rows hold is
    not looked at. *)
Lemma buildResultset_ok_well_formed (nameTypes : list TableColumn)
    (values : list (list value)) :
  (exists r, buildResultset nameTypes values = Ok r)
  <-> well_formed_rows (length nameTypes) values.
Proof.
  split.
  - intros [r Hok]. unfold buildResultset in Hok. split.
    + apply buildRows_ok_widths in Hok. simpl in Hok.
      by rewrite length_replicate in Hok.
    + intros row0 Hrow0. destruct values as [|vs rest]; [done|].
      injection Hrow0 as ->. simpl in Hok.
      destruct (negb _); [done|].
      destruct (buildRow nameTypes 0 0 row0 _ []) as [[fields row]| |]
        eqn:Hrow; [|done|done].
      by eapply buildRow_ok_supported.
  - intros Hwf. eexists. by apply buildResultset_resultset_of.
Qed.

Lemma buildRows_later_no_panic nameTypes values : forall i r,
  i <> 0%nat -> buildRows nameTypes i values r <> Panic.
Proof.
  induction values as [|vs values IH]; intros i r Hi; simpl; [done|].
  destruct (negb _); [done|].
  destruct (buildRow_later_rows nameTypes i vs 0 (Fields r) [] Hi) as [row ->].
  apply IH. lia.
Qed.

(** Whatever the metadata and the rows, [buildResultset] does not panic
    (every index it uses is in range): it returns a resultset or an
    error. *)
Theorem buildResultset_no_panic (nameTypes : list TableColumn)
    (values : list (list value)) :
  (exists r, buildResultset nameTypes values = Ok r)
  \/ (exists e, buildResultset nameTypes values = Err e).
Proof.
  unfold buildResultset. destruct values as [|row0 rest]; [left; eauto|].
  simpl. rewrite length_replicate.
  destruct (Nat.eqb_spec (length row0) (length nameTypes)) as [Hrow|];
    simpl; [|right; eauto].
  destruct (buildRow_first_row nameTypes row0 0
              (replicate (length nameTypes) None) []
              (length_replicate _ _) Hrow)
    as [(fields' & row' & -> & _)|[ty ->]]; [|right; eauto].
  pose proof (buildRows_later_no_panic nameTypes rest 1
                (mkResultset fields' ([] ++ [row'])) ltac:(lia)) as Hnp.
  destruct (buildRows nameTypes 1 rest _) as [r|e|]; [left|right|]; eauto.
  done.
Qed.

(** After a successful build with at least one row, every column has a
    descriptor whose name, type, charset and signedness are the schema's,
    whatever the rows hold; only the flags come from the value the first
    row has in that column. *)
Theorem buildResultset_fields_from_schema (nameTypes : list TableColumn)
    (row0 : list value) (rest : list (list value)) (r : Resultset)
    (j : nat) (nt : TableColumn) (v : value) :
  buildResultset nameTypes (row0 :: rest) = Ok r ->
  nameTypes !! j = Some nt ->
  row0 !! j = Some v ->
  exists f,
    Fields r !! j = Some (Some f)
    /\ Field_Name f = Column_Name nt
    /\ Field_Type f = Column_SqlType nt
    /\ Field_Charset f = uint16 (CollationNames (Column_Collation nt))
    /\ Field_IsUnsigned f = Column_IsUnsigned nt
    /\ Field_Flag f
       = match v with
         | VInt _ _ => Z.lor BINARY_FLAG NOT_NULL_FLAG
         | VUint _ _ => Z.lor (Z.lor BINARY_FLAG NOT_NULL_FLAG) UNSIGNED_FLAG
         | _ => 0
         end.
Proof.
  intros Hok Hnt Hv.
  assert (Hwf : well_formed_rows (length nameTypes) (row0 :: rest))
    by (apply buildResultset_ok_well_formed; eauto).
  rewrite (buildResultset_resultset_of _ _ Hwf) in Hok. injection Hok as <-.
  exists (first_row_field nt v). split.
  - simpl. rewrite list_lookup_fmap, lookup_zip_with, Hnt. simpl.
    by rewrite Hv.
  - unfold first_row_field. by destruct v.
Qed.

(** A successful build has one buffer per row and one slot per column. *)
Theorem buildResultset_shape (nameTypes : list TableColumn)
    (values : list (list value)) (r : Resultset) :
  buildResultset nameTypes values = Ok r ->
  length (Fields r) = length nameTypes
  /\ length (RowDatas r) = length values
  /\ (values <> [] -> exists fs, Fields r = Some <$> fs).
Proof.
  intros Hok.
  assert (Hwf : well_formed_rows (length nameTypes) values)
    by (apply buildResultset_ok_well_formed; eauto).
  rewrite (buildResultset_resultset_of _ _ Hwf) in Hok. injection Hok as <-.
  destruct Hwf as [Hall _].
  destruct values as [|row0 rest]; simpl.
  - rewrite length_replicate. repeat split. done.
  - inversion Hall as [|? ? Hrow0 _]; subst.
    rewrite !length_fmap, length_zip_with. repeat split; [lia|].
    intros _. eauto.
Qed.

(** Rows of the right width whose first row holds supported values are
    always encoded, and the result is fully determined: the descriptors
    come from the first row and the metadata, the first buffer is
    rendered under the columns' types and signedness, and every later
    buffer under wire type 0, signed, whatever the column's type is. *)
Theorem buildResultset_well_formed (nameTypes : list TableColumn)
    (values : list (list value)) :
  well_formed_rows (length nameTypes) values ->
  buildResultset nameTypes values = Ok (resultset_of nameTypes values)
  /\ forall i vs,
       values !! S i = Some vs ->
       RowDatas (resultset_of nameTypes values) !! S i
       = Some (concat (encode_value 0 false <$> vs)).
Proof.
  intros Hwf. split; [by apply buildResultset_resultset_of|].
  intros i vs Hvs. destruct values as [|row0 rest]; [done|].
  simpl in *. by rewrite list_lookup_fmap, Hvs.
Qed.

(** [buildResultset] succeeds exactly on rows of the right width whose
    first row holds values of supported types; values of other types in
    later rows are not rejected. *)
Theorem buildResultset_ok_iff (nameTypes : list TableColumn)
    (values : list (list value)) :
  (exists r, buildResultset nameTypes values = Ok r)
  <-> (Forall (fun vs => length vs = length nameTypes) values
       /\ forall row0, values !! 0%nat = Some row0 -> Forall supported row0).
Proof.
  rewrite buildResultset_ok_well_formed. unfold well_formed_rows. done.
Qed.

End EncoderFunctional.

Section WriterFunctional.
Import Mysql Schema Proxy.
Context `{Externals}.
Variable io_fails : nat -> bool.

Lemma written_from_refl c : written_from c c.
Proof. exists []. by rewrite app_nil_r. Qed.

Lemma written_from_trans c1 c2 c3 :
  written_from c1 c2 -> written_from c2 c3 -> written_from c1 c3.
Proof.
  intros [e1 H1] [e2 H2]. exists (e1 ++ e2). by rewrite H2, H1, app_assoc.
Qed.

Lemma appends_only_ret A (a : A) : appends_only (io_ret a).
Proof. intros c. split; [done | apply written_from_refl]. Qed.

Lemma appends_only_bind A B (m : IO A) (k : A -> IO B) :
  appends_only m -> (forall a, appends_only (k a)) ->
  appends_only (io_bind m k).
Proof.
  intros Hm Hk c. unfold io_bind. specialize (Hm c).
  destruct (m c) as [[a| |] c1]; simpl in *; try done.
  destruct (Hk a c1) as [Ha Hw]. destruct Hm as [Hm1 Hm2].
  split; [congruence | by eapply written_from_trans].
Qed.

Lemma appends_only_writePacket data : appends_only (writePacket io_fails data).
Proof.
  intros c. unfold writePacket.
  destruct (io_fails (length (io c))); simpl.
  - split; [done | apply written_from_refl].
  - split; [done | by eexists].
Qed.

Lemma appends_only_flush : appends_only (flush io_fails).
Proof.
  intros c. unfold flush.
  destruct (io_fails (length (io c))); simpl.
  - split; [done | apply written_from_refl].
  - split; [done | by eexists].
Qed.

Lemma appends_only_writeFields fields : forall data,
  appends_only (writeFields io_fails data fields).
Proof.
  induction fields as [|[v|] fields IH]; intros data; simpl.
  - apply appends_only_ret.
  - apply appends_only_bind; [apply appends_only_writePacket | intros _; apply IH].
  - intros c. split; [done | apply written_from_refl].
Qed.

Lemma appends_only_writeRows rows : forall data,
  appends_only (writeRows io_fails data rows).
Proof.
  induction rows as [|v rows IH]; intros data; simpl.
  - apply appends_only_ret.
  - apply appends_only_bind; [apply appends_only_writePacket | intros _; apply IH].
Qed.

(** However [writeResultset] ends (success, write error or panic), the
    affected-row count is -1 afterwards and everything that was on the
    wire before is still there, in order, with the new events behind it. *)
Theorem writeResultset_appends (status : Z) (r : Resultset) (c : Conn) :
  affectedRows (snd (writeResultset io_fails status r c)) = -1
  /\ written_from c (snd (writeResultset io_fails status r c)).
Proof.
  unfold writeResultset.
  set (c0 := mkConn (int64 (-1)) (io c)).
  set (m := io_bind _ _).
  assert (Hm : appends_only m).
  { unfold m.
    repeat (first
      [ apply appends_only_bind
      | apply appends_only_writePacket
      | apply appends_only_writeFields
      | apply appends_only_writeRows
      | apply appends_only_flush
      | intros ? ]). }
  destruct (Hm c0) as [Ha Hw]. split; [exact Ha | exact Hw].
Qed.

(** The resultset [buildResultset] returns for an empty row list cannot be
    written when there is at least one column: its descriptors are nil,
    and [writeResultset] panics on the first of them, after the
    column-count packet has gone out. *)
Theorem writeResultset_of_no_rows_panics (nameTypes : list TableColumn)
    (status : Z) (c : Conn) :
  nameTypes <> [] ->
  io_fails (length (io c)) = false ->
  exists r,
    buildResultset nameTypes [] = Ok r
    /\ writeResultset io_fails status r c
       = (Panic,
          mkConn (-1)
            (io c ++ [EvPacket
                        (PutLengthEncodedInt (Z.of_nat (length nameTypes)))])).
Proof.
  intros Hne Hok. eexists. split; [reflexivity|].
  unfold writeResultset. simpl. rewrite length_replicate.
  destruct nameTypes as [|nt nts]; [done|]. simpl length. simpl replicate.
  unfold io_bind at 1. unfold writePacket at 1. simpl io. rewrite Hok.
  reflexivity.
Qed.

(** Building and then writing well-formed rows (at least one) over a
    transport that refuses nothing sends the column count, one descriptor
    per column, an EOF, one buffer per row and an EOF, then flushes. *)
Theorem build_then_write (nameTypes : list TableColumn)
    (row0 : list value) (rest : list (list value)) (status : Z) (c : Conn) :
  well_formed_rows (length nameTypes) (row0 :: rest) ->
  (forall k, io_fails k = false) ->
  exists r,
    buildResultset nameTypes (row0 :: rest) = Ok r
    /\ writeResultset io_fails status r c
       = (Ok tt,
          mkConn (-1)
            (io c
             ++ [EvPacket (PutLengthEncodedInt (Z.of_nat (length nameTypes)))]
             ++ (EvPacket ∘ Dump <$> zip_with first_row_field nameTypes row0)
             ++ [EvPacket (eof_payload status)]
             ++ [EvPacket (encode_first_row nameTypes row0)]
             ++ (EvPacket ∘ encode_later_row <$> rest)
             ++ [EvPacket (eof_payload status); EvFlush])).
Proof.
  intros Hwf Hok. exists (resultset_of nameTypes (row0 :: rest)).
  split; [by apply buildResultset_resultset_of|].
  destruct Hwf as [Hall _]. inversion Hall as [|? ? Hrow0 _]; subst.
  rewrite (writeResultset_as_send io_fails status
             (resultset_of nameTypes (row0 :: rest))
             (zip_with first_row_field nameTypes row0) eq_refl).
  unfold io_bind. rewrite send_all by (intros; apply Hok).
  unfold flush. cbn [io affectedRows]. rewrite Hok.
  unfold resultset_packets. simpl RowDatas.
  rewrite length_zip_with, Hrow0, Nat.min_id.
  f_equal. f_equal. rewrite <- app_assoc. f_equal.
  rewrite !fmap_app, !fmap_cons, <- !list_fmap_compose. simpl.
  f_equal. rewrite <- app_assoc. f_equal. simpl. do 2 f_equal.
  by rewrite <- app_assoc.
Qed.

End WriterFunctional.

(** * Further properties of the schema registry *)

Section RegistryFunctional.
Import Schema Tabletserver.
Context `{Backend}.

(** Whatever [CreateOrUpdateTable] meets (a refused connection, a failed
    query, an unknown table, a malformed row, a table that cannot be
    read), it touches nothing but the entry of the table it was asked
    for: either the registry and the plan cache are as before, or that
    one entry has been written and the plan cache is as before when the
    name was new and cleared when it was not. The override list and the
    capacity of the plan cache never change. *)
Lemma CreateOrUpdateTable_one_entry (tableName : string) (si si' : SchemaInfo)
    (o : outcome unit) :
  CreateOrUpdateTable tableName si = (o, si') ->
  overrides si' = overrides si
  /\ lru_capacity (queries si') = lru_capacity (queries si)
  /\ (forall other, other <> tableName ->
                    tables si' !! other = tables si !! other)
  /\ ((tables si' = tables si /\ queries si' = queries si)
      \/ exists tableInfo,
          tables si' = <[tableName := tableInfo]> (tables si)
          /\ ((tables si !! tableName = None /\ queries si' = queries si)
              \/ (is_Some (tables si !! tableName)
                  /\ queries si' = Clear (queries si)))).
Proof.
  unfold CreateOrUpdateTable. intros Hrun.
  assert (Hwrite : forall cp tableInfo,
    let s1 := set_cachePool cp si in
    let s2 := if bool_decide (is_Some (tables s1 !! tableName))
              then set_queries (Clear (queries s1)) s1 else s1 in
    si' = set_tables (<[tableName := tableInfo]> (tables s2)) s2 ->
    overrides si' = overrides si
    /\ lru_capacity (queries si') = lru_capacity (queries si)
    /\ (forall other, other <> tableName ->
                      tables si' !! other = tables si !! other)
    /\ ((tables si' = tables si /\ queries si' = queries si)
        \/ exists tableInfo,
            tables si' = <[tableName := tableInfo]> (tables si)
            /\ ((tables si !! tableName = None /\ queries si' = queries si)
                \/ (is_Some (tables si !! tableName)
                    /\ queries si' = Clear (queries si))))).
  { clear Hrun. intros cp tableInfo s1 s2 ->. subst s1 s2. simpl.
    destruct (bool_decide (is_Some (tables si !! tableName))) eqn:Hex; simpl.
    - apply bool_decide_eq_true in Hex.
      repeat split; [by intros; apply lookup_insert_ne|].
      right. exists tableInfo. split; [done|]. by right.
    - apply bool_decide_eq_false in Hex.
      repeat split; [by intros; apply lookup_insert_ne|].
      right. exists tableInfo. split; [done|]. left. split; [|done].
      by apply eq_None_not_Some. }
  assert (Hsame : forall cp, si' = set_cachePool cp si \/ si' = si ->
    overrides si' = overrides si
    /\ lru_capacity (queries si') = lru_capacity (queries si)
    /\ (forall other, other <> tableName ->
                      tables si' !! other = tables si !! other)
    /\ ((tables si' = tables si /\ queries si' = queries si)
        \/ exists tableInfo,
            tables si' = <[tableName := tableInfo]> (tables si)
            /\ ((tables si !! tableName = None /\ queries si' = queries si)
                \/ (is_Some (tables si !! tableName)
                    /\ queries si' = Clear (queries si))))).
  { clear Hrun Hwrite. intros cp [-> | ->]; repeat split; auto. }
  destruct (negb PopConn_ok); [injection Hrun as _ <-; by eapply (Hsame (cachePool si)); right|].
  destruct (Execute (show_table_query tableName)) as [[|row0 rest]|];
    try (injection Hrun as _ <-; by eapply (Hsame (cachePool si)); right).
  destruct (row0 !! 2%nat) as [v2|];
    [|injection Hrun as _ <-; by eapply (Hsame (cachePool si)); right].
  destruct (BuildValue v2) as [create_time|];
    [|injection Hrun as _ <-; by eapply (Hsame (cachePool si)); right].
  destruct (row0 !! 1%nat) as [[| | | |table_type| |]|];
    try (injection Hrun as _ <-; by eapply (Hsame (cachePool si)); right).
  destruct (row0 !! 3%nat) as [[| | | |table_comment| |]|];
    try (injection Hrun as _ <-; by eapply (Hsame (cachePool si)); right).
  destruct (NewTableInfo tableName table_type create_time table_comment
              (cachePool si)) as [[tableInfo|] cp];
    [|injection Hrun as _ <-; by eapply (Hsame cp); left].
  apply (Hwrite cp tableInfo).
  destruct (bool_decide (Table_CacheType tableInfo = CACHE_NONE));
    [by injection Hrun as _ <-|].
  destruct (Table_Cache tableInfo); by injection Hrun as _ <-.
Qed.

(** Loading a table that the registry did not hold adds its entry and
    leaves the plan cache as it was. *)
Theorem CreateOrUpdateTable_new_table (tableName : string)
    (si : SchemaInfo) (tableInfo : TableInfo) (row0 : list value)
    (rest : list (list value)) (v2 create_time : value)
    (table_type table_comment : list byte) (cp : CachePool) :
  tables si !! tableName = None ->
  PopConn_ok = true ->
  Execute (show_table_query tableName) = Some (row0 :: rest) ->
  row0 !! 1%nat = Some (VBytes table_type) ->
  row0 !! 2%nat = Some v2 ->
  row0 !! 3%nat = Some (VBytes table_comment) ->
  BuildValue v2 = Some create_time ->
  NewTableInfo tableName table_type create_time table_comment (cachePool si)
    = (Some tableInfo, cp) ->
  (Table_CacheType tableInfo = CACHE_NONE \/ is_Some (Table_Cache tableInfo)) ->
  exists si',
    CreateOrUpdateTable tableName si = (Returns tt, si')
    /\ GetTable tableName si' = Some tableInfo
    /\ tables si' = <[tableName := tableInfo]> (tables si)
    /\ queries si' = queries si.
Proof.
  intros Hnew Hpop Hexec H1 H2 H3 Hbv Hti Hcache.
  unfold CreateOrUpdateTable, GetTable.
  rewrite Hpop, Hexec, H2, Hbv, H1, H3, Hti. simpl.
  rewrite Hnew.
  rewrite (bool_decide_eq_false_2 (is_Some None)) by (by intros [? ?]).
  exists (set_tables (<[tableName := tableInfo]> (tables si))
            (set_cachePool cp si)).
  split; [|split; [apply lookup_insert_eq | done]].
  destruct Hcache as [Hnone | [rc Hrc]].
  - by rewrite bool_decide_eq_true_2.
  - rewrite Hrc. by case_bool_decide.
Qed.

(** [DropTable] forgets the table and nothing else in the registry, and
    empties the plan cache without changing its capacity, also when the
    table was not registered. *)
Theorem DropTable_effects (tableName : string) (si : SchemaInfo) :
  GetTable tableName (DropTable tableName si) = None
  /\ (forall other, other <> tableName ->
        GetTable other (DropTable tableName si) = GetTable other si)
  /\ lru_size (queries (DropTable tableName si)) = 0
  /\ lru_capacity (queries (DropTable tableName si))
     = lru_capacity (queries si)
  /\ cachePool (DropTable tableName si) = cachePool si
  /\ (tables si !! tableName = None ->
      tables (DropTable tableName si) = tables si).
Proof.
  unfold DropTable, GetTable. simpl. repeat split.
  - apply lookup_delete_eq.
  - intros other Hne. by apply lookup_delete_ne.
  - intros Hnone. by apply delete_id.
Qed.

(** Loading a new table and dropping it again gives back the registry
    there was before. *)
Theorem DropTable_after_load (tableName : string) (si si' : SchemaInfo)
    (o : outcome unit) :
  tables si !! tableName = None ->
  CreateOrUpdateTable tableName si = (o, si') ->
  tables (DropTable tableName si') = tables si
  /\ overrides (DropTable tableName si') = overrides si.
Proof.
  intros Hnone Hrun.
  destruct (CreateOrUpdateTable_one_entry _ _ _ _ Hrun)
    as (Hov & _ & _ & [[Ht _] | (ti & Ht & _)]).
  - unfold DropTable. simpl. rewrite Ht. split; [by apply delete_id | done].
  - unfold DropTable. simpl. rewrite Ht. split; [|done].
    rewrite delete_insert_eq. by apply delete_id.
Qed.

(** Whatever [CreateOrUpdateTable] meets (a refused connection, a failed
    query, an unknown table, a malformed row, a table that cannot be
    read), it touches no entry but the one of the table it was asked for,
    never changes the override list or the capacity of the plan cache,
    and clears the plan cache only when it overwrites an entry that was
    already there. *)
Theorem CreateOrUpdateTable_effects (tableName : string) (si si' : SchemaInfo)
    (o : outcome unit) :
  CreateOrUpdateTable tableName si = (o, si') ->
  overrides si' = overrides si
  /\ lru_capacity (queries si') = lru_capacity (queries si)
  /\ (forall other, other <> tableName ->
                    GetTable other si' = GetTable other si)
  /\ (queries si' = queries si
      \/ (is_Some (GetTable tableName si)
          /\ is_Some (GetTable tableName si')
          /\ queries si' = Clear (queries si))).
Proof.
  intros Hrun. unfold GetTable.
  destruct (CreateOrUpdateTable_one_entry _ _ _ _ Hrun)
    as (Hov & Hcap & Hother & Hwhat).
  repeat split; try done.
  destruct Hwhat as [[_ Hq] | (ti & Ht & [[_ Hq] | [Hsome Hq]])]; auto.
  right. split; [done|]. split; [|done].
  rewrite Ht, lookup_insert_eq. by eexists.
Qed.

End RegistryFunctional.

Section OverrideFunctional.
Import Schema Tabletserver.
Context `{Backend}.

(** One rule touches at most the entry it names and the cache pool's
    count of prefixes. *)
Lemma override_rule_frame (o : SchemaOverride) (si : SchemaInfo) :
  overrides (override_rule o si) = overrides si
  /\ queries (override_rule o si) = queries si
  /\ pool_closed (cachePool (override_rule o si)) = pool_closed (cachePool si)
  /\ dom (tables (override_rule o si)) = dom (tables si)
  /\ (forall other, other <> Override_Name o ->
        tables (override_rule o si) !! other = tables si !! other).
Proof.
  unfold override_rule, NewRowCache.
  destruct (tables si !! Override_Name o) as [table|] eqn:Ht; [|done].
  assert (Hdom : forall t, dom (<[Override_Name o := t]> (tables si))
                           = dom (tables si))
    by (intros t; apply dom_insert_lookup_L; eauto).
  repeat case_match; simplify_eq; simpl;
    (split; [done|split; [done|split; [done|split;
       [ rewrite ?dom_alter_L, ?Hdom; done
       | intros other Hne;
         rewrite ?lookup_alter_ne, ?lookup_insert_ne by done; done ]]]]).
Qed.

Lemma override_rules_frame (ors : list SchemaOverride) : forall si,
  overrides (fold_left (fun si o => override_rule o si) ors si) = overrides si
  /\ queries (fold_left (fun si o => override_rule o si) ors si) = queries si
  /\ pool_closed (cachePool (fold_left (fun si o => override_rule o si) ors si))
     = pool_closed (cachePool si)
  /\ dom (tables (fold_left (fun si o => override_rule o si) ors si))
     = dom (tables si)
  /\ (forall other, other ∉ Override_Name <$> ors ->
        tables (fold_left (fun si o => override_rule o si) ors si) !! other
        = tables si !! other).
Proof.
  induction ors as [|o ors IH]; intros si; simpl; [done|].
  destruct (IH (override_rule o si)) as (Ho & Hq & Hp & Hd & Hother).
  destruct (override_rule_frame o si) as (Ho1 & Hq1 & Hp1 & Hd1 & Hother1).
  repeat split; try congruence.
  intros other Hnot. rewrite Hother, Hother1; [done| |].
  - intros ->. apply Hnot. by left.
  - intros Hin. apply Hnot. by right.
Qed.

(** [override] never adds or removes a table, leaves the plan cache and
    the override list alone, does not open or close the cache pool, and
    does not touch a table that no rule names. *)
Theorem override_frame (si : SchemaInfo) :
  overrides (override si) = overrides si
  /\ queries (override si) = queries si
  /\ pool_closed (cachePool (override si)) = pool_closed (cachePool si)
  /\ dom (tables (override si)) = dom (tables si)
  /\ (forall other, other ∉ Override_Name <$> overrides si ->
        GetTable other (override si) = GetTable other si).
Proof. apply override_rules_frame. Qed.

(** A read-write rule on a registered table, with the pool open, gives
    the table a cache of its own: the cache type becomes [CACHE_RW], the
    cache is a new one made for this table with the pool's next prefix,
    and the pool has counted it. *)
Lemma override_rule_RW_entry (o : SchemaOverride) (desc : OverrideCacheDesc)
    (si : SchemaInfo) (table table1 : TableInfo) :
  tables si !! Override_Name o = Some table ->
  (Override_PKColumns o = None /\ table1 = table
   \/ exists cols, Override_PKColumns o = Some cols
                   /\ SetPK cols table = (table1, true)) ->
  IsClosed (cachePool si) = false ->
  Override_Cache o = Some desc ->
  Desc_Type desc = "RW" ->
  GetTable (Override_Name o) (override_rule o si)
  = Some (mkTableInfo (Table_Name table1) (Table_PK table1) CACHE_RW
            (Some (mkRowCache (Table_Name table1)
                     (int64 (maxPrefix (cachePool si) + 1)))))
  /\ maxPrefix (cachePool (override_rule o si))
     = int64 (maxPrefix (cachePool si) + 1).
Proof.
  intros Ht Hpk Hopen Hdesc Hty. unfold GetTable, override_rule. rewrite Ht.
  destruct Hpk as [[Hpk ->] | (cols & Hpk & Hset)]; rewrite Hpk; simpl.
  - rewrite Hopen, Hdesc, Hty. simpl.
    rewrite lookup_alter_eq, Ht. simpl.
    by rewrite lookup_alter_eq, lookup_alter_eq, Ht.
  - rewrite Hset. simpl. rewrite Hopen, Hdesc, Hty. simpl.
    rewrite lookup_alter_eq, lookup_insert_eq. simpl.
    by rewrite lookup_alter_eq, lookup_alter_eq, lookup_insert_eq.
Qed.

(** A write-only rule whose target is another registered table with a
    cache makes the table share that very cache: the cache type becomes
    [CACHE_W], the table and the target hold the same cache, and no cache
    is made. *)
Lemma override_rule_W_entry (o : SchemaOverride)
    (desc : OverrideCacheDesc) (si : SchemaInfo)
    (table table1 totable : TableInfo) (rc : RowCache) :
  tables si !! Override_Name o = Some table ->
  (Override_PKColumns o = None /\ table1 = table
   \/ exists cols, Override_PKColumns o = Some cols
                   /\ SetPK cols table = (table1, true)) ->
  IsClosed (cachePool si) = false ->
  Override_Cache o = Some desc ->
  Desc_Type desc = "W" ->
  Desc_Table desc <> "" ->
  Desc_Table desc <> Override_Name o ->
  tables si !! Desc_Table desc = Some totable ->
  Table_Cache totable = Some rc ->
  GetTable (Override_Name o) (override_rule o si)
  = Some (mkTableInfo (Table_Name table1) (Table_PK table1) CACHE_W (Some rc))
  /\ GetTable (Desc_Table desc) (override_rule o si) = Some totable
  /\ cachePool (override_rule o si) = cachePool si.
Proof.
  intros Ht Hpk Hopen Hdesc Hty Hnonempty Hne Hto Hrc.
  assert (Hlen : (String.length (Desc_Table desc) =? 0)%nat = false)
    by (by destruct (Desc_Table desc)).
  unfold GetTable, override_rule. rewrite Ht.
  destruct Hpk as [[Hpk ->] | (cols & Hpk & Hset)]; rewrite Hpk; simpl.
  - rewrite Hopen, Hdesc, Hty. simpl. rewrite Hlen.
    rewrite lookup_alter_ne, Hto, Hrc by done. simpl.
    rewrite lookup_alter_eq, lookup_alter_eq, Ht. simpl.
    by rewrite !lookup_alter_ne, Hto by done.
  - rewrite Hset. simpl. rewrite Hopen, Hdesc, Hty. simpl. rewrite Hlen.
    rewrite lookup_alter_ne, lookup_insert_ne, Hto, Hrc by done. simpl.
    rewrite lookup_alter_eq, lookup_alter_eq, lookup_insert_eq. simpl.
    by rewrite !lookup_alter_ne, lookup_insert_ne, Hto by done.
Qed.

(** A rule without primary-key columns changes nothing at all when the
    cache pool is closed, when it has no cache descriptor, or when the
    descriptor's type is neither "RW" nor "W". *)
Theorem override_rule_no_cache_change (o : SchemaOverride) (si : SchemaInfo) :
  Override_PKColumns o = None ->
  (IsClosed (cachePool si) = true
   \/ Override_Cache o = None
   \/ exists desc, Override_Cache o = Some desc
                   /\ Desc_Type desc <> "RW" /\ Desc_Type desc <> "W") ->
  override_rule o si = si.
Proof.
  intros Hpk Hwhy. unfold override_rule. rewrite Hpk.
  destruct (tables si !! Override_Name o) as [table|]; [|done]. simpl.
  destruct Hwhy as [-> | [-> | (desc & -> & Hrw & Hw)]].
  - done.
  - by destruct (IsClosed (cachePool si)).
  - apply String.eqb_neq in Hrw, Hw. rewrite Hrw, Hw.
    by destruct (IsClosed (cachePool si)).
Qed.

(** Aliasing depends on the order of the rules. With a read-write rule
    for [a] before a write-only rule of [b] on [a], one pass of [override]
    leaves both tables holding the cache just made for [a]. With the
    rules the other way round, [b] is typed write-only but keeps the
    cache it had, because [a] had none yet when [b]'s rule ran. *)
Theorem override_alias_order (si : SchemaInfo) (a b p1 t1 p2 : string)
    (ta tb : TableInfo) :
  tables si !! a = Some ta ->
  tables si !! b = Some tb ->
  a <> b -> a <> "" ->
  IsClosed (cachePool si) = false ->
  Table_Cache ta = None ->
  let rw := mkSchemaOverride a None (Some (mkOverrideCacheDesc "RW" p1 t1)) in
  let w := mkSchemaOverride b None (Some (mkOverrideCacheDesc "W" p2 a)) in
  let rc := mkRowCache (Table_Name ta) (int64 (maxPrefix (cachePool si) + 1)) in
  let forward :=
    override (mkSchemaInfo (tables si) [rw; w] (queries si) (cachePool si)) in
  let backward :=
    override (mkSchemaInfo (tables si) [w; rw] (queries si) (cachePool si)) in
  (Table_Cache <$> GetTable a forward = Some (Some rc)
   /\ Table_Cache <$> GetTable b forward = Some (Some rc)
   /\ Table_CacheType <$> GetTable b forward = Some CACHE_W)
  /\ (Table_Cache <$> GetTable a backward = Some (Some rc)
      /\ Table_Cache <$> GetTable b backward = Some (Table_Cache tb)
      /\ Table_CacheType <$> GetTable b backward = Some CACHE_W).
Proof.
  intros Ha Hb Hab Hne Hopen Hnocache rw w rc forward backward.
  split.
  - set (s0 := mkSchemaInfo (tables si) [rw; w] (queries si) (cachePool si)).
    set (s1 := override_rule rw s0).
    assert (Hfwd : forward = override_rule w s1) by reflexivity.
    destruct (override_rule_RW_entry rw (mkOverrideCacheDesc "RW" p1 t1)
                s0 ta ta Ha (or_introl (conj eq_refl eq_refl))
                Hopen eq_refl eq_refl) as [Ha1 _].
    destruct (override_rule_frame rw s0) as (_ & _ & Hp1 & _ & Hother1).
    fold s1 in Ha1, Hp1, Hother1. unfold GetTable in Ha1. simpl in Ha1.
    assert (Hb1 : tables s1 !! b = Some tb)
      by (rewrite (Hother1 b) by (simpl; congruence); exact Hb).
    assert (Hopen1 : IsClosed (cachePool s1) = false)
      by (unfold IsClosed in *; by rewrite Hp1).
    destruct (override_rule_W_entry w (mkOverrideCacheDesc "W" p2 a)
                s1 tb tb
                (mkTableInfo (Table_Name ta) (Table_PK ta) CACHE_RW (Some rc))
                rc Hb1
                (or_introl (conj eq_refl eq_refl)) Hopen1 eq_refl eq_refl
                Hne Hab Ha1 eq_refl) as (Hb2 & Ha2 & _).
    rewrite Hfwd. simpl in Ha2, Hb2. by rewrite Ha2, Hb2.
  - set (s0 := mkSchemaInfo (tables si) [w; rw] (queries si) (cachePool si)).
    set (s1 := override_rule w s0).
    assert (Hbwd : backward = override_rule rw s1) by reflexivity.
    assert (Hb1 : tables s1 !! b = Some (set_CacheType CACHE_W tb)).
    { apply (override_rule_write_only_no_target w
               (mkOverrideCacheDesc "W" p2 a) s0 tb); try done.
      right. exists ta. done. }
    destruct (override_rule_frame w s0) as (_ & _ & Hp1 & _ & Hother1).
    fold s1 in Hp1, Hother1.
    assert (Ha1 : tables s1 !! a = Some ta)
      by (rewrite (Hother1 a) by (simpl; congruence); exact Ha).
    assert (Hpool : cachePool s1 = cachePool s0).
    { unfold s1, override_rule. simpl. by repeat case_match. }
    assert (Hopen1 : IsClosed (cachePool s1) = false)
      by (unfold IsClosed in *; by rewrite Hp1).
    destruct (override_rule_RW_entry rw (mkOverrideCacheDesc "RW" p1 t1)
                s1 ta ta Ha1
                (or_introl (conj eq_refl eq_refl)) Hopen1 eq_refl eq_refl)
      as [Ha2 _].
    destruct (override_rule_frame rw s1) as (_ & _ & _ & _ & Hother2).
    rewrite Hbwd. unfold GetTable in *.
    change (Override_Name rw) with a in Ha2. rewrite Ha2.
    rewrite (Hother2 b) by (simpl; congruence). rewrite Hb1. simpl.
    by rewrite Hpool.
Qed.

(** Loading the tables of the overrides only ever writes entries under
    the names of the overrides, and leaves an empty plan cache empty. *)
Lemma load_tables_effects (ors : list SchemaOverride) : forall si o si',
  load_tables ors si = (o, si') ->
  overrides si' = overrides si
  /\ lru_capacity (queries si') = lru_capacity (queries si)
  /\ (lru_entries (queries si) = [] -> lru_entries (queries si') = [])
  /\ (forall name, is_Some (tables si' !! name) ->
        is_Some (tables si !! name) \/ name ∈ Override_Name <$> ors).
Proof.
  induction ors as [|r ors IH]; intros si o si' Hrun; simpl in Hrun.
  - injection Hrun as _ <-. auto.
  - destruct (CreateOrUpdateTable (Override_Name r) si) as [o1 si1] eqn:Hone.
    destruct (CreateOrUpdateTable_one_entry _ _ _ _ Hone)
      as (Hov & Hcap & Hother & Hwhat).
    assert (Hentries : lru_entries (queries si) = [] ->
                       lru_entries (queries si1) = []).
    { intros He. destruct Hwhat as [[_ ->] | (ti & _ & [[_ ->] | [_ ->]])];
        done. }
    assert (Hdom : forall name, is_Some (tables si1 !! name) ->
              is_Some (tables si !! name)
              \/ name ∈ Override_Name <$> r :: ors).
    { intros name Hsome.
      destruct (decide (name = Override_Name r)) as [->|Hne].
      - right. rewrite fmap_cons. by left.
      - left. by rewrite <- Hother. }
    destruct o1 as [[]| |].
    + destruct (IH _ _ _ Hrun) as (Hov2 & Hcap2 & He2 & Hdom2).
      repeat split; try congruence; [auto|].
      intros name Hsome. destruct (Hdom2 name Hsome) as [Hin | Hin].
      * by apply Hdom.
      * right. rewrite fmap_cons. by right.
    + injection Hrun as _ <-. auto.
    + injection Hrun as _ <-. auto.
Qed.

(** However [NewSchemaInfo] ends, the registry holds no table that is not
    named by an override, and the plan cache is empty with a capacity of
    128 MiB; without a connection pool the process exits with nothing
    registered. *)
Theorem NewSchemaInfo_registry (opened : bool) (ors : list SchemaOverride)
    (o : outcome unit) (si' : SchemaInfo) :
  NewSchemaInfo opened ors = (o, si') ->
  (forall name, is_Some (GetTable name si') -> name ∈ Override_Name <$> ors)
  /\ lru_entries (queries si') = []
  /\ lru_capacity (queries si') = 134217728
  /\ (opened = false -> o = Exits /\ tables si' = ∅)
  /\ (o = Returns tt -> overrides si' = ors).
Proof.
  unfold NewSchemaInfo, GetTable. destruct opened; simpl.
  - unfold load_and_override. simpl.
    match goal with |- context [load_tables ors ?s] => set (s0 := s) end.
    destruct (load_tables ors s0) as [o1 s1] eqn:Hload.
    destruct (load_tables_effects _ _ _ _ Hload) as (Hov & Hcap & He & Hdom).
    specialize (He eq_refl). change (lru_capacity (queries s0)) with 134217728 in Hcap.
    change (overrides s0) with ors in Hov.
    assert (Hnames : forall name, is_Some (tables s1 !! name) ->
                                  name ∈ Override_Name <$> ors).
    { intros name Hsome. destruct (Hdom name Hsome) as [[x Hx]|]; [|done].
      unfold s0 in Hx. simpl in Hx. by rewrite lookup_empty in Hx. }
    destruct o1 as [[]| |]; intros Hrun; injection Hrun as <- <-.
    + destruct (override_rules_frame (overrides s1) s1)
        as (Hov2 & Hq2 & _ & Hd2 & _).
      fold (override s1) in Hov2, Hq2, Hd2.
      rewrite Hq2. repeat split; try done.
      * intros name Hsome. apply Hnames.
        apply elem_of_dom. rewrite <- Hd2. by apply elem_of_dom.
      * intros _. congruence.
    + repeat split; done.
    + repeat split; done.
  - intros Hrun. injection Hrun as <- <-. simpl. repeat split; try done.
    intros name [x Hx]. by rewrite lookup_empty in Hx.
Qed.


(** A write-only rule whose target is another registered table with a
    cache makes the table share that very cache: its cache type becomes
    [CACHE_W], it holds the cache the target holds, the target is left as
    it was, and no cache is made. *)
Theorem override_rule_write_only_alias (o : SchemaOverride)
    (desc : OverrideCacheDesc) (si : SchemaInfo)
    (table table1 totable : TableInfo) (rc : RowCache) :
  tables si !! Override_Name o = Some table ->
  (Override_PKColumns o = None /\ table1 = table
   \/ exists cols, Override_PKColumns o = Some cols
                   /\ SetPK cols table = (table1, true)) ->
  IsClosed (cachePool si) = false ->
  Override_Cache o = Some desc ->
  Desc_Type desc = "W" ->
  Desc_Table desc <> "" ->
  Desc_Table desc <> Override_Name o ->
  tables si !! Desc_Table desc = Some totable ->
  Table_Cache totable = Some rc ->
  GetTable (Override_Name o) (override_rule o si)
  = Some (set_Cache (Some rc) (set_CacheType CACHE_W table1))
  /\ Table_Cache <$> GetTable (Override_Name o) (override_rule o si)
     = Table_Cache <$> GetTable (Desc_Table desc) (override_rule o si)
  /\ GetTable (Desc_Table desc) (override_rule o si) = Some totable
  /\ cachePool (override_rule o si) = cachePool si.
Proof.
  intros Ht Hpk Hopen Hdesc Hty Hnonempty Hne Hto Hrc.
  destruct (override_rule_W_entry o desc si table table1 totable rc
              Ht Hpk Hopen Hdesc Hty Hnonempty Hne Hto Hrc)
    as (Hsrc & Htarget & Hpool).
  repeat split; try done.
  rewrite Hsrc, Htarget. simpl. by rewrite Hrc.
Qed.

End OverrideFunctional.

Section TableStatsFunctional.
Import Schema Tabletserver.
Variable St : string -> TableInfo -> Z * Z * Z * Z.

Lemma list_ascii_of_string_app (s1 s2 : string) :
  String.list_ascii_of_string (s1 +:+ s2)
  = String.list_ascii_of_string s1 ++ String.list_ascii_of_string s2.
Proof. induction s1 as [|c s1 IH]; simpl; [done|]. by rewrite IH. Qed.

Lemma list_ascii_of_string_inj (s1 s2 : string) :
  String.list_ascii_of_string s1 = String.list_ascii_of_string s2 -> s1 = s2.
Proof.
  intros E. apply (f_equal String.string_of_list_ascii) in E.
  by rewrite !String.string_of_list_ascii_of_string in E.
Qed.

(** The keys of two statistics coincide only for the same table and the
    same statistic. *)
Lemma stat_key_inj (k1 k2 : string) (s1 s2 : stat_kind) :
  k1 +:+ stat_suffix s1 = k2 +:+ stat_suffix s2 -> k1 = k2 /\ s1 = s2.
Proof.
  intros E. apply (f_equal String.list_ascii_of_string) in E.
  rewrite !list_ascii_of_string_app in E.
  apply (f_equal (@List.rev _)) in E. rewrite !List.rev_app_distr in E.
  destruct s1, s2; simpl in E; try discriminate E;
    (split; [|done]); apply list_ascii_of_string_inj;
    simplify_eq;
    match goal with
    | Hr : List.rev ?a = List.rev ?b |- _ =>
        apply (f_equal (@List.rev _)) in Hr;
        by rewrite !List.rev_involutive in Hr
    end.
Qed.

Lemma visits_mem (si : SchemaInfo) (entries : list (string * TableInfo)) k v :
  visits si entries ->
  (k, v) ∈ List.rev entries <-> tables si !! k = Some v.
Proof.
  intros Hv. rewrite <- elem_of_map_to_list.
  rewrite <- Hv. by rewrite <- (Permutation_rev entries).
Qed.

Lemma visits_NoDup (si : SchemaInfo) (entries : list (string * TableInfo)) :
  visits si entries -> NoDup (List.rev entries).*1.
Proof.
  intros Hv. rewrite <- (Permutation_rev entries), Hv.
  apply NoDup_fst_map_to_list.
Qed.

Lemma getTableStats_foldr (l : list (string * TableInfo)) :
  NoDup l.*1 ->
  forall key x,
    fold_right (fun kv tstats => getTableStats_body St tstats kv) ∅ l
      !! key = Some x
    <-> exists k v s,
          (k, v) ∈ l /\ Table_CacheType v <> CACHE_NONE
          /\ key = k +:+ stat_suffix s /\ x = stat_value s (St k v).
Proof.
  induction l as [|[k0 v0] l IH]; intros Hnd key x.
  - simpl. rewrite lookup_empty. split; [done|].
    intros (k & v & s & Hin & _). by apply elem_of_nil in Hin.
  - apply NoDup_cons in Hnd as [Hk0 Hnd]. specialize (IH Hnd key x).
    cbn [fold_right].
    set (rec := fold_right _ ∅ l) in *. unfold getTableStats_body.
    case_bool_decide as Hc.
    + destruct (St k0 v0) as [[[h a] m] i] eqn:Hst.
      split.
      * intros Hl.
        destruct (decide (key = k0 +:+ ".Misses")) as [->|Hm].
        { rewrite lookup_insert_eq in Hl. injection Hl as <-.
          exists k0, v0, Misses. rewrite Hst. repeat split; [by left|done]. }
        rewrite lookup_insert_ne in Hl by done.
        destruct (decide (key = k0 +:+ ".Absent")) as [->|Ha].
        { rewrite lookup_insert_eq in Hl. injection Hl as <-.
          exists k0, v0, Absent. rewrite Hst. repeat split; [by left|done]. }
        rewrite lookup_insert_ne in Hl by done.
        destruct (decide (key = k0 +:+ ".Hits")) as [->|Hh].
        { rewrite lookup_insert_eq in Hl. injection Hl as <-.
          exists k0, v0, Hits. rewrite Hst. repeat split; [by left|done]. }
        rewrite lookup_insert_ne in Hl by done.
        apply IH in Hl as (k & v & s & Hin & Hrest).
        exists k, v, s. split; [by right | done].
      * intros (k & v & s & Hin & Hcv & -> & ->).
        apply elem_of_cons in Hin as [[= -> ->] | Hin].
        { rewrite Hst.
          destruct s; simpl.
          - rewrite lookup_insert_ne
              by (intros E; by apply (stat_key_inj _ _ Misses Hits) in E as [_ ?]).
            rewrite lookup_insert_ne
              by (intros E; by apply (stat_key_inj _ _ Absent Hits) in E as [_ ?]).
            by rewrite lookup_insert_eq.
          - rewrite lookup_insert_ne
              by (intros E; by apply (stat_key_inj _ _ Misses Absent) in E as [_ ?]).
            by rewrite lookup_insert_eq.
          - by rewrite lookup_insert_eq. }
        assert (Hne : k <> k0).
        { intros ->. apply Hk0. apply list_elem_of_fmap. by exists (k0, v). }
        assert (Hkey : forall s0,
                  k0 +:+ stat_suffix s0 <> k +:+ stat_suffix s).
        { intros s0 E. apply stat_key_inj in E as [? _]. congruence. }
        rewrite (lookup_insert_ne _ _ _ _ (Hkey Misses)).
        rewrite (lookup_insert_ne _ _ _ _ (Hkey Absent)).
        rewrite (lookup_insert_ne _ _ _ _ (Hkey Hits)).
        apply IH. by exists k, v, s.
    + rewrite IH. split.
      * intros (k & v & s & Hin & Hrest). exists k, v, s. split; [by right|done].
      * intros (k & v & s & Hin & Hcv & Hrest).
        apply elem_of_cons in Hin as [[= -> ->] | Hin]; [done|].
        by exists k, v, s.
Qed.

(** In whatever order Go visits the registry, [getTableStats] reports
    exactly the hits, absents and misses of the tables whose cache type
    is not [CACHE_NONE], each under the table's name followed by ".Hits",
    ".Absent" or ".Misses"; no key of one table overwrites a key of
    another, and an uncached table has no key. *)
Theorem getTableStats_spec (si : SchemaInfo)
    (entries : list (string * TableInfo)) (key : string) (x : Z) :
  visits si entries ->
  getTableStats St entries !! key = Some x
  <-> exists k v s,
        GetTable k si = Some v /\ Table_CacheType v <> CACHE_NONE
        /\ key = k +:+ stat_suffix s /\ x = stat_value s (St k v).
Proof.
  intros Hv. unfold getTableStats, GetTable.
  rewrite <- fold_left_rev_right.
  rewrite (getTableStats_foldr (List.rev entries))
    by (by eapply visits_NoDup).
  split; intros (k & v & s & Hin & Hrest); exists k, v, s;
    (split; [|done]); by eapply visits_mem.
Qed.

Lemma getTableInvalidations_foldr (l : list (string * TableInfo)) :
  NoDup l.*1 ->
  forall key x,
    fold_right (fun kv tstats => getTableInvalidations_body St tstats kv)
      ∅ l !! key = Some x
    <-> exists v,
          (key, v) ∈ l /\ Table_CacheType v <> CACHE_NONE
          /\ x = snd (St key v).
Proof.
  induction l as [|[k0 v0] l IH]; intros Hnd key x.
  - simpl. rewrite lookup_empty. split; [done|].
    intros (v & Hin & _). by apply elem_of_nil in Hin.
  - apply NoDup_cons in Hnd as [Hk0 Hnd]. specialize (IH Hnd key x).
    cbn [fold_right].
    set (rec := fold_right _ ∅ l) in *. unfold getTableInvalidations_body.
    case_bool_decide as Hc.
    + destruct (St k0 v0) as [[[h a] m] i] eqn:Hst.
      destruct (decide (key = k0)) as [->|Hne].
      * rewrite lookup_insert_eq. split.
        { intros Hx. injection Hx as <-. exists v0. rewrite Hst.
          repeat split; [by left | done]. }
        intros (v & Hin & Hcv & ->).
        apply elem_of_cons in Hin as [[= ->] | Hin].
        { by rewrite Hst. }
        exfalso. apply Hk0. apply list_elem_of_fmap. by exists (k0, v).
      * rewrite lookup_insert_ne by done. rewrite IH.
        split; intros (v & Hin & Hrest); exists v; (split; [|done]).
        { by right. }
        apply elem_of_cons in Hin as [Heq | Hin]; [congruence | done].
    + rewrite IH. split.
      * intros (v & Hin & Hrest). exists v. split; [by right|done].
      * intros (v & Hin & Hcv & Hrest).
        apply elem_of_cons in Hin as [[= -> ->] | Hin]; [done|].
        by exists v.
Qed.

(** In whatever order Go visits the registry, [getTableInvalidations] has
    an entry exactly for the tables whose cache type is not [CACHE_NONE],
    holding the table's invalidation count. *)
Theorem getTableInvalidations_spec (si : SchemaInfo)
    (entries : list (string * TableInfo)) (key : string) (x : Z) :
  visits si entries ->
  getTableInvalidations St entries !! key = Some x
  <-> exists v,
        GetTable key si = Some v /\ Table_CacheType v <> CACHE_NONE
        /\ x = snd (St key v).
Proof.
  intros Hv. unfold getTableInvalidations, GetTable.
  rewrite <- fold_left_rev_right.
  rewrite (getTableInvalidations_foldr (List.rev entries))
    by (by eapply visits_NoDup).
  split; intros (v & Hin & Hrest); exists v;
    (split; [|done]); by eapply visits_mem.
Qed.

End TableStatsFunctional.

(** * Further properties of the plan statistics *)

Section StatsFunctional.
Import Tabletserver.

(** Applied to any plan whose counters are [int64] values, the calls add
    their componentwise sums to the counters, with [int64] wrap-around,
    in whatever order they are applied. *)
Theorem AddStats_all_from (ep : ExecPlan) (calls calls' : list call) :
  (forall k, in_int64 (get k ep)) ->
  Permutation calls calls' ->
  Stats (AddStats_all calls' ep)
  = (int64 (QueryCount ep + sum_arg CQuery calls),
     int64 (Time ep + sum_arg CTime calls),
     int64 (RowCount ep + sum_arg CRow calls),
     int64 (ErrorCount ep + sum_arg CError calls)).
Proof.
  intros Hrange Hperm.
  assert (Hget : forall k,
             get k (AddStats_all calls' ep)
             = int64 (get k ep + sum_arg k calls)).
  { intros k. rewrite AddStats_all_get by (by apply int64_in_range).
    by rewrite (sum_arg_Permutation k calls calls' Hperm). }
  pose proof (Hget CQuery) as Hq. pose proof (Hget CTime) as Hd.
  pose proof (Hget CRow) as Hr. pose proof (Hget CError) as He.
  simpl in Hq, Hd, Hr, He. unfold Stats. by rewrite Hq, Hd, Hr, He.
Qed.

Lemma run_app (a b : list nat) : forall s,
  run (a ++ b) s = match run a s with Some s1 => run b s1 | None => None end.
Proof.
  induction a as [|i a IH]; intros s; simpl; [done|].
  destruct (sched_step i s); [apply IH | done].
Qed.

(** In every state the callers can reach, at most one goroutine is
    between [Lock] and [Unlock], and the mutex is held exactly when one
    is. *)
Theorem AddStats_mutual_exclusion (name : string) (calls : list call)
    (schedule : list nat) (s : system) :
  run schedule (start (zero_plan name) calls) = Some s ->
  (forall i j g g',
      i <> j ->
      sys_goroutines s !! i = Some g ->
      sys_goroutines s !! j = Some g' ->
      in_critical g = 1 -> in_critical g' = 0)
  /\ (mu_locked (sys_shared s) = true
      <-> exists i g, sys_goroutines s !! i = Some g /\ in_critical g = 1).
Proof.
  intros Hrun.
  pose proof (run_consistent schedule _ _ (start_consistent name calls) Hrun)
    as Hs.
  split.
  - intros i j g g' Hne Hi Hj Hg. by eapply (consistent_exclusive s i j).
  - pose proof (mutex_ok s Hs) as Hm. split.
    + intros Hmu. rewrite Hmu in Hm.
      destruct (total_pos in_critical (sys_goroutines s)) as (i & g & Hi & Hg);
        [lia|].
      exists i, g. split; [done|].
      pose proof (in_critical_le_one g). lia.
    + intros (i & g & Hi & Hg).
      pose proof (total_one in_critical _ i g in_critical_nonneg Hi).
      destruct (mu_locked (sys_shared s)); [done | lia].
Qed.

Lemma total_contrib_outside (k : counter) (gs : list (call * pc)) :
  Forall (fun g => in_critical g = 0) gs ->
  total (contrib k) gs = sum_arg k (finished_calls gs).
Proof.
  unfold finished_calls.
  induction 1 as [|[c p] gs Hp _ IH]; [done|].
  simpl. rewrite filter_cons. simpl.
  destruct p as [|k'|k' tmp| |]; unfold in_critical in Hp; simpl in Hp;
    try lia.
  - rewrite decide_False by done. rewrite IH. unfold contrib. simpl. lia.
  - rewrite decide_True by done. rewrite fmap_cons. simpl.
    rewrite IH. unfold contrib. simpl. done.
Qed.

(** Whenever the mutex is free, which is when [Stats] can take it, the
    counters hold exactly the sums over the calls that have finished: a
    reader never sees part of a call. *)
Theorem Stats_sees_whole_calls (name : string) (calls : list call)
    (schedule : list nat) (s : system) :
  run schedule (start (zero_plan name) calls) = Some s ->
  mu_locked (sys_shared s) = false ->
  Stats (plan (sys_shared s))
  = expected_stats (finished_calls (sys_goroutines s)).
Proof.
  intros Hrun Hfree.
  pose proof (run_consistent schedule _ _ (start_consistent name calls) Hrun)
    as Hs.
  pose proof (mutex_ok s Hs) as Hm. rewrite Hfree in Hm.
  assert (Hout : Forall (fun g => in_critical g = 0) (sys_goroutines s)).
  { apply Forall_lookup. intros i g Hi.
    pose proof (total_one in_critical _ i g in_critical_nonneg Hi).
    pose proof (in_critical_nonneg g). lia. }
  assert (Hget : forall k,
             get k (plan (sys_shared s))
             = int64 (sum_arg k (finished_calls (sys_goroutines s)))).
  { intros k. by rewrite (counters_ok s Hs), (total_contrib_outside k _ Hout). }
  pose proof (Hget CQuery) as Hq. pose proof (Hget CTime) as Hd.
  pose proof (Hget CRow) as Hr. pose proof (Hget CError) as He.
  simpl in Hq, Hd, Hr, He. unfold Stats, expected_stats.
  by rewrite Hq, Hd, Hr, He.
Qed.

(** From every state the callers can reach, the calls still running can
    be scheduled to the end (no deadlock), and the plan then holds the
    sums over all the calls. *)
Theorem AddStats_can_always_finish (name : string) (calls : list call)
    (schedule : list nat) (s : system) :
  run schedule (start (zero_plan name) calls) = Some s ->
  exists schedule' s',
    run schedule' s = Some s'
    /\ all_finished s'
    /\ Stats (plan (sys_shared s')) = expected_stats calls.
Proof.
  intros Hrun.
  pose proof (run_consistent schedule _ _ (start_consistent name calls) Hrun)
    as Hs.
  destruct (complete_schedule _ s Hs eq_refl) as (schedule' & s' & Hrun' & Hfin).
  exists schedule', s'. split; [done|]. split; [done|].
  apply (run_finished_stats name calls (schedule ++ schedule')); [|done].
  by rewrite run_app, Hrun.
Qed.

End StatsFunctional.

(** * Closed examples of the further properties *)

Section FunctionalExamples.
Import Mysql Schema Proxy Tabletserver.

Lemma buildResultset_well_formed_witness :
  @buildResultset sample_externals
    [mkTableColumn "id" MYSQL_TYPE_LONGLONG "binary" false;
     mkTableColumn "name" MYSQL_TYPE_VARCHAR "utf8_general_ci" false]
    [[VInt KInt 7; VNil]; [VOther "bool"; VString "bob"]]
  = Ok (mkResultset
          [Some (mkField "id" 63 8 129 false);
           Some (mkField "name" 33 15 0 false)]
          [[x01; x37; xfb]; [x00; x03; x62; x6f; x62]]).
Proof.
  refine (proj1 (@buildResultset_well_formed sample_externals
                   [mkTableColumn "id" MYSQL_TYPE_LONGLONG "binary" false;
                    mkTableColumn "name" MYSQL_TYPE_VARCHAR "utf8_general_ci"
                      false]
                   [[VInt KInt 7; VNil]; [VOther "bool"; VString "bob"]] _)).
  split.
  - repeat constructor.
  - intros row0 Hrow0. injection Hrow0 as <-. repeat constructor.
Defined.

Lemma buildResultset_fields_from_schema_witness :
  exists f,
    Fields (@resultset_of sample_externals
              [mkTableColumn "n" MYSQL_TYPE_VARCHAR "utf8_general_ci" true]
              [[VInt KInt 7]; [VNil]]) !! 0%nat = Some (Some f)
    /\ Field_Name f = "n"
    /\ Field_Type f = MYSQL_TYPE_VARCHAR
    /\ Field_Charset f = 33
    /\ Field_IsUnsigned f = true
    /\ Field_Flag f = Z.lor BINARY_FLAG NOT_NULL_FLAG.
Proof.
  exact (@buildResultset_fields_from_schema sample_externals
           [mkTableColumn "n" MYSQL_TYPE_VARCHAR "utf8_general_ci" true]
           [VInt KInt 7] [[VNil]] _ 0%nat _ _ eq_refl eq_refl eq_refl).
Defined.

Lemma writeResultset_of_no_rows_panics_witness :
  exists r,
    @buildResultset sample_externals
      [mkTableColumn "id" MYSQL_TYPE_LONGLONG "binary" false] [] = Ok r
    /\ @writeResultset sample_externals (fun _ => false) 2 r (mkConn 0 [])
       = (Panic, mkConn (-1) [EvPacket [x01]]).
Proof.
  apply (@writeResultset_of_no_rows_panics sample_externals (fun _ => false)
           [mkTableColumn "id" MYSQL_TYPE_LONGLONG "binary" false] 2
           (mkConn 0 [])).
  - discriminate.
  - reflexivity.
Defined.

Lemma build_then_write_witness :
  exists r,
    @buildResultset sample_externals
      [mkTableColumn "id" MYSQL_TYPE_LONGLONG "binary" false]
      [[VInt KInt 7]; [VNil]] = Ok r
    /\ @writeResultset sample_externals (fun _ => false) 2 r (mkConn 0 [])
       = (Ok tt,
          mkConn (-1)
            [EvPacket [x01]; EvPacket [x69; x64];
             EvPacket [xfe; x00; x00; x02; x00];
             EvPacket [x01; x37]; EvPacket [xfb];
             EvPacket [xfe; x00; x00; x02; x00]; EvFlush]).
Proof.
  apply (@build_then_write sample_externals (fun _ => false)
           [mkTableColumn "id" MYSQL_TYPE_LONGLONG "binary" false]
           [VInt KInt 7] [[VNil]] 2 (mkConn 0 [])).
  - split.
    + repeat constructor.
    + intros row0 Hrow0. injection Hrow0 as <-. repeat constructor.
  - reflexivity.
Defined.

Lemma CreateOrUpdateTable_effects_witness :
  overrides (snd (@CreateOrUpdateTable sample_backend "users" (sample_schema [])))
  = []
  /\ lru_capacity
       (queries (snd (@CreateOrUpdateTable sample_backend "users"
                        (sample_schema []))))
     = 134217728.
Proof.
  destruct (@CreateOrUpdateTable_effects sample_backend "users"
              (sample_schema [])
              (snd (@CreateOrUpdateTable sample_backend "users"
                      (sample_schema [])))
              (Returns tt) eq_refl) as (Hov & Hcap & _).
  split; [exact Hov | exact Hcap].
Defined.

Lemma CreateOrUpdateTable_new_table_witness :
  exists si',
    @CreateOrUpdateTable sample_backend "users" empty_schema = (Returns tt, si')
    /\ GetTable "users" si' = Some (mkTableInfo "users" [] CACHE_NONE None)
    /\ tables si'
       = <["users" := mkTableInfo "users" [] CACHE_NONE None]>
           (tables empty_schema)
    /\ queries si' = queries empty_schema.
Proof.
  eapply (@CreateOrUpdateTable_new_table sample_backend "users" empty_schema);
    try reflexivity.
  left. reflexivity.
Defined.

Lemma DropTable_after_load_witness :
  tables (DropTable "users"
            (snd (@CreateOrUpdateTable sample_backend "users" empty_schema)))
  = tables empty_schema
  /\ overrides (DropTable "users"
                  (snd (@CreateOrUpdateTable sample_backend "users"
                          empty_schema)))
     = overrides empty_schema.
Proof.
  exact (@DropTable_after_load sample_backend "users" empty_schema
           (snd (@CreateOrUpdateTable sample_backend "users" empty_schema))
           (Returns tt) eq_refl eq_refl).
Defined.


Lemma override_rule_write_only_alias_witness :
  GetTable "users"
    (@override_rule sample_backend (write_only_rule "orders") cached_schema)
  = Some (mkTableInfo "users" [] CACHE_W (Some (mkRowCache "orders" 1)))
  /\ cachePool
       (@override_rule sample_backend (write_only_rule "orders") cached_schema)
     = cachePool cached_schema.
Proof.
  destruct (@override_rule_write_only_alias sample_backend
              (write_only_rule "orders") (mkOverrideCacheDesc "W" "" "orders")
              cached_schema
              (mkTableInfo "users" [] CACHE_NONE None)
              (mkTableInfo "users" [] CACHE_NONE None)
              (mkTableInfo "orders" [] CACHE_RW (Some (mkRowCache "orders" 1)))
              (mkRowCache "orders" 1))
    as (Hsrc & _ & _ & Hpool); try reflexivity; try discriminate.
  - left. split; reflexivity.
  - split; [exact Hsrc | exact Hpool].
Defined.

Lemma override_rule_no_cache_change_witness :
  @override_rule sample_backend
    (mkSchemaOverride "users" None (Some (mkOverrideCacheDesc "R" "" "")))
    (sample_schema [])
  = sample_schema [].
Proof.
  apply (@override_rule_no_cache_change sample_backend).
  - reflexivity.
  - right. right. eexists. split; [reflexivity|]. split; discriminate.
Defined.

Lemma override_alias_order_witness :
  Table_Cache
    <$> GetTable "users"
          (@override sample_backend
             (mkSchemaInfo (tables uncached_schema)
                [mkSchemaOverride "orders" None
                   (Some (mkOverrideCacheDesc "RW" "" ""));
                 mkSchemaOverride "users" None
                   (Some (mkOverrideCacheDesc "W" "" "orders"))]
                (queries uncached_schema) (cachePool uncached_schema)))
  = Some (Some (mkRowCache "orders" 1))
  /\ Table_Cache
       <$> GetTable "users"
             (@override sample_backend
                (mkSchemaInfo (tables uncached_schema)
                   [mkSchemaOverride "users" None
                      (Some (mkOverrideCacheDesc "W" "" "orders"));
                    mkSchemaOverride "orders" None
                      (Some (mkOverrideCacheDesc "RW" "" ""))]
                   (queries uncached_schema) (cachePool uncached_schema)))
     = Some None.
Proof.
  destruct (@override_alias_order sample_backend uncached_schema
              "orders" "users" "" "" ""
              (mkTableInfo "orders" [] CACHE_NONE None)
              (mkTableInfo "users" [] CACHE_NONE None))
    as [(_ & Hfwd & _) (_ & Hbwd & _)];
    try reflexivity; try discriminate.
  split; [exact Hfwd | exact Hbwd].
Defined.

Lemma NewSchemaInfo_registry_witness :
  lru_entries
    (queries (snd (@NewSchemaInfo sample_backend true
                     [write_only_rule "orders"]))) = []
  /\ lru_capacity
       (queries (snd (@NewSchemaInfo sample_backend true
                        [write_only_rule "orders"]))) = 134217728
  /\ overrides (snd (@NewSchemaInfo sample_backend true
                       [write_only_rule "orders"]))
     = [write_only_rule "orders"].
Proof.
  destruct (@NewSchemaInfo_registry sample_backend true
              [write_only_rule "orders"] (Returns tt)
              (snd (@NewSchemaInfo sample_backend true
                      [write_only_rule "orders"]))
              eq_refl) as (_ & Hentries & Hcap & _ & Hov).
  split; [exact Hentries|]. split; [exact Hcap | exact (Hov eq_refl)].
Defined.

Lemma getTableStats_spec_witness :
  getTableStats sample_table_stats (map_to_list (tables cached_schema))
    !! "orders.Misses" = Some 2
  <-> exists k v s,
        GetTable k cached_schema = Some v
        /\ Table_CacheType v <> CACHE_NONE
        /\ "orders.Misses" = k +:+ stat_suffix s
        /\ 2 = stat_value s (sample_table_stats k v).
Proof.
  apply (getTableStats_spec sample_table_stats cached_schema).
  unfold visits. reflexivity.
Defined.

Lemma getTableInvalidations_spec_witness :
  getTableInvalidations sample_table_stats (map_to_list (tables cached_schema))
    !! "orders" = Some 7
  <-> exists v,
        GetTable "orders" cached_schema = Some v
        /\ Table_CacheType v <> CACHE_NONE
        /\ 7 = snd (sample_table_stats "orders" v).
Proof.
  apply (getTableInvalidations_spec sample_table_stats cached_schema).
  unfold visits. reflexivity.
Defined.

Lemma AddStats_all_from_witness :
  Stats (AddStats_all [mkCall 1 20 3 1; mkCall 1 10 2 0]
           (mkExecPlan "q" 5 100 7 0))
  = (7, 130, 12, 1).
Proof.
  refine (eq_trans
            (AddStats_all_from (mkExecPlan "q" 5 100 7 0)
               [mkCall 1 10 2 0; mkCall 1 20 3 1]
               [mkCall 1 20 3 1; mkCall 1 10 2 0] _ _) _).
  - intros k. unfold in_int64, int64_min, int64_max. destruct k; simpl; lia.
  - apply perm_swap.
  - vm_compute. reflexivity.
Defined.

Lemma AddStats_mutual_exclusion_witness :
  exists s,
    run [0%nat; 0%nat; 0%nat]
      (start (zero_plan "q") [mkCall 1 10 2 0; mkCall 1 20 3 1]) = Some s
    /\ mu_locked (sys_shared s) = true
    /\ forall g', sys_goroutines s !! 1%nat = Some g' -> in_critical g' = 0.
Proof.
  eexists. split; [vm_compute; reflexivity|]. split; [reflexivity|].
  intros g' Hg'.
  refine (proj1 (AddStats_mutual_exclusion "q"
                   [mkCall 1 10 2 0; mkCall 1 20 3 1]
                   [0%nat; 0%nat; 0%nat] _ _)
            0%nat 1%nat (mkCall 1 10 2 0, AtLoad CTime) g' _ _ Hg' _).
  - vm_compute. reflexivity.
  - lia.
  - reflexivity.
  - reflexivity.
Defined.

Lemma Stats_sees_whole_calls_witness :
  exists s,
    run (replicate 10 1%nat)
      (start (zero_plan "q") [mkCall 1 10 2 0; mkCall 1 20 3 1]) = Some s
    /\ Stats (plan (sys_shared s)) = (1, 20, 3, 1).
Proof.
  eexists. split; [vm_compute; reflexivity|].
  refine (eq_trans
            (Stats_sees_whole_calls "q" [mkCall 1 10 2 0; mkCall 1 20 3 1]
               (replicate 10 1%nat) _ _ _) _).
  - vm_compute. reflexivity.
  - reflexivity.
  - vm_compute. reflexivity.
Defined.

Lemma AddStats_can_always_finish_witness :
  exists schedule' s',
    match run [0%nat; 0%nat; 0%nat]
            (start (zero_plan "q") [mkCall 1 10 2 0; mkCall 1 20 3 1]) with
    | Some s => run schedule' s
    | None => None
    end = Some s'
    /\ all_finished s'
    /\ Stats (plan (sys_shared s')) = (2, 30, 5, 1).
Proof.
  destruct (AddStats_can_always_finish "q" [mkCall 1 10 2 0; mkCall 1 20 3 1]
              [0%nat; 0%nat; 0%nat]
              (mkSystem (mkShared (mkExecPlan "q" 1 0 0 0) true)
                 [(mkCall 1 10 2 0, AtLoad CTime);
                  (mkCall 1 20 3 1, AtLock)]))
    as (schedule' & s' & Hrun & Hfin & Hstats).
  - vm_compute. reflexivity.
  - exists schedule', s'. split; [exact Hrun|]. split; [exact Hfin|].
    rewrite Hstats. vm_compute. reflexivity.
Defined.

End FunctionalExamples.
